(** * uno-bot: card recognition, manual entry and move suggestion

    A shallow embedding of [src/bot.py] (classes [UNOCardDetector] and
    [UNOGame]) together with the properties its specification states.

    Conventions of the embedding.
    - A Python [str] is a [string]; the character with code [n] stands for
      the code point U+00nn, so the strings of the model are exactly the
      Python strings over U+0000..U+00FF.  The tables for [str.isdigit],
      [str.isspace] and [str.lower] below are the Unicode ones restricted
      to that range.
    - A Python [int] is a [Z].
    - A raised exception is the [Raise] case of [result].
    - A card is one of the three dict shapes the program ever builds. *)

From Stdlib Require Import ZArith Lia Ascii String DecimalString.
From stdpp Require Import base list sorting strings.

Local Open Scope string_scope.
Local Open Scope list_scope.
Local Open Scope Z_scope.

(** ** Exceptions *)

Inductive exn : Type :=
| KeyError
| ValueError
| IndexError.

Inductive result (A : Type) : Type :=
| Ok (a : A)
| Raise (e : exn).

Arguments Ok {A} a.
Arguments Raise {A} e.

#[global] Instance exn_eq_dec : EqDecision exn.
Proof. solve_decision. Defined.

#[global] Instance result_eq_dec {A : Type} `{EqDecision A} : EqDecision (result A).
Proof. solve_decision. Defined.

#[global] Instance result_ret : MRet result := fun A a => Ok a.

#[global] Instance result_bind : MBind result := fun A B k m =>
  match m with
  | Ok a => k a
  | Raise e => Raise e
  end.

(** ** Python strings *)

Module Str.

Definition chars (s : string) : list ascii := list_ascii_of_string s.
Definition of_chars (l : list ascii) : string := string_of_list_ascii l.

Definition between (lo hi : N) (c : ascii) : bool :=
  ((lo <=? N_of_ascii c) && (N_of_ascii c <=? hi))%N.

(** Decimal digits (Unicode category Nd) below U+0100: '0'..'9'. *)
Definition isdecimal_char (c : ascii) : bool := between 48 57 c.

(** [c.isdigit()]: the decimal digits and the superscript digits
    U+00B2, U+00B3, U+00B9. *)
Definition isdigit_char (c : ascii) : bool :=
  isdecimal_char c || between 178 179 c || between 185 185 c.

(** [c.isspace()]: U+0009..U+000D, U+001C..U+0020, U+0085, U+00A0. *)
Definition isspace_char (c : ascii) : bool :=
  between 9 13 c || between 28 32 c || between 133 133 c || between 160 160 c.

(** [c.lower()]: 'A'..'Z' and U+00C0..U+00DE except U+00D7. *)
Definition lower_char (c : ascii) : ascii :=
  if between 65 90 c || (between 192 222 c && negb (between 215 215 c))
  then ascii_of_N (N_of_ascii c + 32)
  else c.

(** [s.lower()] *)
Definition lower (s : string) : string := of_chars (map lower_char (chars s)).

(** [s.isdigit()]: false on the empty string. *)
Definition isdigit (s : string) : bool :=
  match chars s with
  | [] => false
  | l => forallb isdigit_char l
  end.

(** [''.join([c for c in s if c.isdigit()])] *)
Definition digits_of (s : string) : string :=
  of_chars (List.filter isdigit_char (chars s)).

Fixpoint lstrip_chars (p : ascii -> bool) (l : list ascii) : list ascii :=
  match l with
  | [] => []
  | c :: l' => if p c then lstrip_chars p l' else l
  end.

Definition strip_chars (p : ascii -> bool) (l : list ascii) : list ascii :=
  rev (lstrip_chars p (rev (lstrip_chars p l))).

(** [s.strip()] *)
Definition strip (s : string) : string :=
  of_chars (strip_chars isspace_char (chars s)).

(** [s.split()]: maximal runs of non-whitespace characters.  [cur] is the
    run being read, most recent character first. *)
Fixpoint split_chars (cur : list ascii) (l : list ascii) : list string :=
  match l with
  | [] => match cur with [] => [] | _ => [of_chars (rev cur)] end
  | c :: l' =>
      if isspace_char c then
        match cur with
        | [] => split_chars [] l'
        | _ => of_chars (rev cur) :: split_chars [] l'
        end
      else split_chars (c :: cur) l'
  end.

Definition split (s : string) : list string := split_chars [] (chars s).

(** [sub in s] *)
Fixpoint contains (sub s : string) : bool :=
  String.prefix sub s ||
  match s with
  | EmptyString => false
  | String _ s' => contains sub s'
  end.

(** [x in l] for a list of strings. *)
Definition mem (x : string) (l : list string) : bool :=
  existsb (String.eqb x) l.

(** *** [int(s)]

    Leading and trailing whitespace is dropped (the whitespace [int]
    accepts: U+0009..U+000D, U+0020, U+0085, U+00A0), then an optional
    sign, then decimal digits, single underscores allowed between two
    digits.  Below U+0100 the only characters with a decimal value are
    '0'..'9'; every other text raises [ValueError].  So does a text of
    more digits than the interpreter's limit, 4300 unless it is
    reconfigured, which the program does not do: every digit counts,
    leading zeros too; the sign, the underscores and the whitespace do
    not. *)

Definition int_space_char (c : ascii) : bool :=
  between 9 13 c || between 32 32 c || between 133 133 c || between 160 160 c.

Definition digit_value (c : ascii) : Z := Z.of_N (N_of_ascii c) - 48.

Fixpoint int_digits (acc : Z) (after_digit : bool) (l : list ascii) : option Z :=
  match l with
  | [] => if after_digit then Some acc else None
  | c :: l' =>
      if isdecimal_char c then int_digits (10 * acc + digit_value c) true l'
      else if between 95 95 c && after_digit then int_digits acc false l'
      else None
  end.

Definition int_signed (l : list ascii) : option Z :=
  match l with
  | [] => None
  | c :: l' =>
      if between 43 43 c then int_digits 0 false l'
      else if between 45 45 c then Z.opp <$> int_digits 0 false l'
      else int_digits 0 false l
  end.

(** [sys.int_info.default_max_str_digits] *)
Definition max_str_digits : Z := 4300.

Definition digit_count (l : list ascii) : Z :=
  Z.of_nat (length (List.filter isdecimal_char l)).

Definition int (s : string) : result Z :=
  let l := strip_chars int_space_char (chars s) in
  match int_signed l with
  | Some n => if max_str_digits <? digit_count l then Raise ValueError else Ok n
  | None => Raise ValueError
  end.

End Str.

(** The one-character string U+00nn. *)
Definition chr (n : N) : string := String (ascii_of_N n) EmptyString.

(** ** [list.sort(key=...)]: a stable sort by an integer key

    The sort of Python is stable.  A list has one stable sort only
    ([sort_by_unique] below), so the insertion sort here stands for it. *)

Section Sort.
Context {A : Type} (key : A -> Z).

(** [x] stood before every element of [l] in the unsorted list, so it goes
    in front of the elements of [l] whose key equals its own. *)
Fixpoint insert_by (x : A) (l : list A) : list A :=
  match l with
  | [] => [x]
  | y :: l' => if key x <=? key y then x :: l else y :: insert_by x l'
  end.

Definition sort_by (l : list A) : list A := foldr insert_by [] l.

End Sort.

(** ** Cards

    The three dict shapes built by [detect_card] and [parse_manual_input]:
    [{'type': 'number', 'color': c, 'value': v}],
    [{'type': 'action', 'color': c, 'action': a}] and
    [{'type': 'wild', 'action': a}]. *)

Inductive card : Type :=
| NumberCard (color : string) (value : Z)
| ActionCard (color : string) (action : string)
| WildCard (action : string).

#[global] Instance card_eq_dec : EqDecision card.
Proof. solve_decision. Defined.

(** [c['type']] *)
Definition card_type (c : card) : string :=
  match c with
  | NumberCard _ _ => "number"
  | ActionCard _ _ => "action"
  | WildCard _ => "wild"
  end.

(** [c['color']], [c['value']], [c['action']]: a missing key raises. *)
Definition getitem_color (c : card) : result string :=
  match c with
  | NumberCard color _ | ActionCard color _ => Ok color
  | WildCard _ => Raise KeyError
  end.

Definition getitem_value (c : card) : result Z :=
  match c with
  | NumberCard _ value => Ok value
  | _ => Raise KeyError
  end.

Definition getitem_action (c : card) : result string :=
  match c with
  | ActionCard _ action | WildCard action => Ok action
  | NumberCard _ _ => Raise KeyError
  end.

(** [c.get('color')], [c.get('value')], [c.get('action')]: a missing key
    gives [None]. *)
Definition get_color (c : card) : option string :=
  match c with
  | NumberCard color _ | ActionCard color _ => Some color
  | WildCard _ => None
  end.

Definition get_value (c : card) : option Z :=
  match c with
  | NumberCard _ value => Some value
  | _ => None
  end.

Definition get_action (c : card) : option string :=
  match c with
  | ActionCard _ action | WildCard action => Some action
  | NumberCard _ _ => None
  end.

(** ** UNOCardDetector *)

(** An HSV pixel, and a pair of inclusive bounds on it. *)
Definition hsv : Type := Z * Z * Z.
Definition hsv_range : Type := hsv * hsv.

(** The values of [color_ranges]: a list of two ranges for red, one range
    for every other colour. *)
Inductive ranges : Type :=
| TwoRanges (r0 r1 : hsv_range)
| OneRange (r : hsv_range).

Definition color_ranges : list (string * ranges) :=
  [ ("red", TwoRanges ((0, 120, 70), (10, 255, 255))
                      ((170, 120, 70), (180, 255, 255)));
    ("blue", OneRange ((90, 120, 70), (140, 255, 255)));
    ("green", OneRange ((36, 50, 50), (89, 255, 255)));
    ("yellow", OneRange ((20, 100, 100), (35, 255, 255)));
    ("black", OneRange ((0, 0, 0), (180, 50, 50))) ].

Definition special_cards : list (string * string) :=
  [ ("S", "skip"); ("R", "reverse"); ("+2", "draw_two");
    ("W", "wild"); ("+4", "wild_draw_four") ].

(** [cv2.inRange]: the mask of the pixels within the bounds, channel by
    channel; a mask is kept as one boolean per pixel. *)
Definition in_range (lo hi : hsv) (p : hsv) : bool :=
  let '(l0, l1, l2) := lo in
  let '(h0, h1, h2) := hi in
  let '(p0, p1, p2) := p in
  (l0 <=? p0) && (p0 <=? h0) && (l1 <=? p1) && (p1 <=? h1) &&
  (l2 <=? p2) && (p2 <=? h2).

Definition inRange (img : list hsv) (lo hi : hsv) : list bool :=
  map (in_range lo hi) img.

Definition bitwise_or (m1 m2 : list bool) : list bool := zip_with orb m1 m2.

Definition countNonZero (mask : list bool) : Z :=
  Z.of_nat (length (List.filter id mask)).

(** The mask computed in the body of the loop of [detect_color]; in the
    table the two-range entry is the one named red. *)
Definition color_mask (img : list hsv) (rs : ranges) : list bool :=
  match rs with
  | TwoRanges r0 r1 => bitwise_or (inRange img r0.1 r0.2) (inRange img r1.1 r1.2)
  | OneRange r => inRange img r.1 r.2
  end.

(** [color_scores] after the loop, in insertion order. *)
Definition color_scores (img : list hsv) : list (string * Z) :=
  map (fun '(color, rs) => (color, countNonZero (color_mask img rs))) color_ranges.

(** [color_scores[k]] on a [defaultdict(int)]. *)
Fixpoint score_of (scores : list (string * Z)) (k : string) : Z :=
  match scores with
  | [] => 0
  | (k', v) :: rest => if String.eqb k k' then v else score_of rest k
  end.

(** [max(d, key=d.get)]: the first key, in iteration order, whose value
    no other key exceeds; [ValueError] on an empty dict. *)
Fixpoint max_from (best : string * Z) (rest : list (string * Z)) : string :=
  match rest with
  | [] => best.1
  | kv :: rest' => max_from (if best.2 <? kv.2 then kv else best) rest'
  end.

Definition max_key (scores : list (string * Z)) : result string :=
  match scores with
  | [] => Raise ValueError
  | kv :: rest => Ok (max_from kv rest)
  end.

(** What [detect_card_type] returns: an [int], a [str] or [None]. *)
Inductive symbol : Type :=
| SymInt (n : Z)
| SymStr (s : string)
| SymNone.

#[global] Instance symbol_eq_dec : EqDecision symbol.
Proof. solve_decision. Defined.

(** The loop over [special_cards.items()]: the name of the first symbol
    found in the text. *)
Fixpoint first_special (text : string) (items : list (string * string)) : option string :=
  match items with
  | [] => None
  | (symbol, name) :: rest =>
      if Str.contains symbol text then Some name else first_special text rest
  end.

Definition tesseract_config : string :=
  "--psm 10 --oem 3 -c tessedit_char_whitelist=0123456789SRW+24".

Section Detector.

(** The services of OpenCV and Tesseract the detector calls: images, the
    conversion of a BGR image to its HSV pixels, the preprocessing for text
    recognition, the recognition itself, and the crop to the central 80%
    of an image. *)
Variable image : Type.
Variable gray : Type.
Variable cvtColor_BGR2HSV : image -> list hsv.
Variable preprocess_image : image -> gray.
Variable image_to_string : gray -> string -> string.
Variable crop : image -> image.

Definition detect_color (img : image) : result string :=
  let hsv := cvtColor_BGR2HSV img in
  let scores := color_scores hsv in
  dominant_color ← max_key scores;
  mret (if 1000 <? score_of scores dominant_color then dominant_color else "unknown").

Definition detect_card_type (img : image) : result symbol :=
  let processed := preprocess_image img in
  let text := Str.strip (image_to_string processed tesseract_config) in
  match first_special text special_cards with
  | Some name => mret (SymStr name)
  | None =>
      let clean_text := Str.digits_of text in
      if bool_decide (clean_text = "") then mret SymNone
      else
        number ← Str.int clean_text;
        if (0 <=? number) && (number <=? 9) then mret (SymInt number)
        else mret SymNone
  end.

(** Names for the text [detect_card_type] works on and for its digits. *)
Definition recognized_text (img : image) : string :=
  Str.strip (image_to_string (preprocess_image img) tesseract_config).

Definition clean_text (img : image) : string :=
  Str.digits_of (recognized_text img).

Definition detect_card (img : image) : result (option card) :=
  let cropped := crop img in
  color ← detect_color cropped;
  value ← detect_card_type cropped;
  if negb (String.eqb color "black") && negb (String.eqb color "unknown") then
    match value with
    | SymInt n => mret (Some (NumberCard color n))
    | SymStr s =>
        if Str.mem s ["skip"; "reverse"; "draw_two"]
        then mret (Some (ActionCard color s))
        else mret None
    | SymNone => mret None
    end
  else if String.eqb color "black" then
    match value with
    | SymStr s =>
        if Str.mem s ["wild"; "wild_draw_four"]
        then mret (Some (WildCard s))
        else mret (Some (WildCard "wild"))
    | _ => mret (Some (WildCard "wild"))
    end
  else mret None.

End Detector.

Arguments detect_color {image} cvtColor_BGR2HSV img.
Arguments detect_card_type {image gray} preprocess_image image_to_string img.
Arguments recognized_text {image gray} preprocess_image image_to_string img.
Arguments clean_text {image gray} preprocess_image image_to_string img.
Arguments detect_card {image gray} cvtColor_BGR2HSV preprocess_image image_to_string crop img.

(** ** UNOGame *)

Record UNOGame : Type := {
  player_hand : list card;
  top_card : option card;
  current_color : option string
}.

Definition set_player_hand (self : UNOGame) (hand : list card) : UNOGame :=
  {| player_hand := hand;
     top_card := top_card self;
     current_color := current_color self |}.

(** *** melhores_jogadas *)

(** The test made on [carta] by the body of the loop: [true] when the card
    is appended to [jogaveis]. *)
Definition jogavel (top_card carta : card) : result bool :=
  if String.eqb (card_type carta) "wild" then mret true
  else
    color ← getitem_color carta;
    if bool_decide (Some color = get_color top_card) then mret true
    else if String.eqb (card_type carta) (card_type top_card) then
      same_value ←
        (if String.eqb (card_type carta) "number" then
           value ← getitem_value carta;
           mret (bool_decide (Some value = get_value top_card))
         else mret false);
      if same_value : bool then mret true
      else if String.eqb (card_type carta) "action" then
        action ← getitem_action carta;
        mret (bool_decide (Some action = get_action top_card))
      else mret false
    else mret false.

Fixpoint jogaveis_loop (top_card : card) (hand jogaveis : list card) : result (list card) :=
  match hand with
  | [] => mret jogaveis
  | carta :: rest =>
      b ← jogavel top_card carta;
      jogaveis_loop top_card rest (if b : bool then jogaveis ++ [carta] else jogaveis)
  end.

(** The key of [jogaveis.sort]. *)
Definition sort_key (c : card) : Z :=
  if String.eqb (card_type c) "number" then 0
  else if String.eqb (card_type c) "action" then 1
  else 2.

(** The function prints its suggestions and returns nothing; the model
    returns the list [jogaveis] it prints, in the order printed, and [None]
    when it leaves early for want of a top card. *)
Definition melhores_jogadas (self : UNOGame) : result (option (list card)) :=
  match top_card self with
  | None => mret None
  | Some top =>
      jogaveis ← jogaveis_loop top (player_hand self) [];
      mret (Some (sort_by sort_key jogaveis))
  end.

(** *** remove_card_from_hand *)

(** [l.pop(i)]: a negative index counts from the end. *)
Definition pop (l : list card) (i : Z) : result (card * list card) :=
  let j := if i <? 0 then i + Z.of_nat (length l) else i in
  if j <? 0 then Raise IndexError
  else
    match l !! Z.to_nat j with
    | Some c => Ok (c, delete (Z.to_nat j) l)
    | None => Raise IndexError
    end.

(** What the function reports on the console. *)
Inductive removal : Type :=
| EmptyHand          (* "A mao esta vazia. Nenhuma carta para remover." *)
| Cancelled          (* "Remocao cancelada." *)
| Removed (c : card) (* "Carta removida: ..." *)
| InvalidNumber      (* "Numero invalido." *)
| InvalidInput.      (* "Entrada invalida. Por favor, insira um numero." *)

(** [line] is what [input] reads.  Nothing is read when the hand is
    empty.  The [try] catches the [ValueError] of [int] only. *)
Definition remove_card_from_hand (self : UNOGame) (line : string) : result (UNOGame * removal) :=
  match player_hand self with
  | [] => mret (self, EmptyHand)
  | _ =>
      match Str.int line with
      | Raise ValueError => mret (self, InvalidInput)
      | Raise e => Raise e
      | Ok choice =>
          if choice =? 0 then mret (self, Cancelled)
          else if (1 <=? choice) && (choice <=? Z.of_nat (length (player_hand self))) then
            '(removed, hand) ← pop (player_hand self) (choice - 1);
            mret (set_player_hand self hand, Removed removed)
          else mret (self, InvalidNumber)
      end
  end.

(** *** parse_manual_input *)

(** The tail shared by the branches that build a card. *)
Definition add_and_return (self : UNOGame) (adicionar_na_mao : bool) (c : card) : UNOGame * option card :=
  (if adicionar_na_mao then set_player_hand self (player_hand self ++ [c]) else self,
   Some c).

Definition parse_manual_input (self : UNOGame) (text : string) (adicionar_na_mao : bool) : result (UNOGame * option card) :=
  let parts := Str.split (Str.lower text) in
  match parts with
  | [color; value] =>
      if Str.mem color ["red"; "blue"; "green"; "yellow"] then
        is_number ←
          (if Str.isdigit value then
             n ← Str.int value;
             mret ((0 <=? n) && (n <=? 9))
           else mret false);
        if is_number : bool then
          n ← Str.int value;
          mret (add_and_return self adicionar_na_mao (NumberCard color n))
        else if Str.mem value ["skip"; "reverse"; "draw_two"] then
          mret (add_and_return self adicionar_na_mao (ActionCard color value))
        else mret (self, None)
      else mret (self, None)
  | [part] =>
      if Str.mem part ["wild"; "wild_draw_four"] then
        mret (add_and_return self adicionar_na_mao (WildCard part))
      else mret (self, None)
  | _ => mret (self, None)
  end.

(** *** The text of a card *)

(** [str(n)] for an [int]: its decimal digits, with a minus sign when
    negative. *)
Definition str_of_int (n : Z) : string := NilZero.string_of_int (Z.to_int n).

(** The text the program prints for a card, after the arrow of a
    suggestion or the position of a listing: the f-strings of
    [melhores_jogadas] and [remove_card_from_hand]. *)
Definition card_text (c : card) : string :=
  match c with
  | NumberCard color value => color +:+ " " +:+ str_of_int value
  | ActionCard color action => color +:+ " " +:+ action
  | WildCard action => action
  end.

(** ** The interactive layer: capture_card and run *)

(** The exceptions that end [capture_card] and [run]: a local variable
    read before it is bound, the end of the input, and the exceptions of
    the functions above, which nothing catches. *)
Inductive io_exn : Type :=
| UnboundLocalError
| EOFError
| Uncaught (e : exn).

Inductive io_result (A : Type) : Type :=
| Done (a : A)
| Fail (e : io_exn).

Arguments Done {A} a.
Arguments Fail {A} e.

Definition lift {A : Type} (r : result A) : io_result A :=
  match r with
  | Ok a => Done a
  | Raise e => Fail (Uncaught e)
  end.

(** The calls on the window and the camera, in the order made. *)
Inductive effect : Type :=
| Imshow
| DestroyAllWindows
| Release.

#[global] Instance effect_eq_dec : EqDecision effect.
Proof. solve_decision. Defined.

(** One pass of the loop of [capture_card] as the camera and the keyboard
    decide it: the frame [cap.read()] gives, [None] when the read fails,
    and the key [cv2.waitKey(1)] returns.  A camera is whether it opens
    and the passes it delivers. *)
Record camera (frame : Type) : Type := {
  opened : bool;
  events : list (option frame * Z)
}.

Arguments opened {frame} c.
Arguments events {frame} c.

Section Capture.

Variable image : Type.
Variable gray : Type.
Variable cvtColor_BGR2HSV : image -> list hsv.
Variable preprocess_image : image -> gray.
Variable image_to_string : gray -> string -> string.
Variable crop : image -> image.

(** Frames: their height and width, the frame with the rectangle and the
    caption drawn on it, and the slice [frame[r0:r1, c0:c1]]. *)
Variable frame : Type.
Variable shape : frame -> Z * Z.
Variable annotate : frame -> frame.
Variable region : frame -> Z -> Z -> Z -> Z -> image.

(** The loop of [capture_card].  [None]: the passes delivered end before
    the loop does.  A failed read breaks out with [card_img] unbound, which
    the [return] after the loop then reads. *)
Fixpoint capture_loop (passes : list (option frame * Z)) (log : list effect) : option (io_result (option card) * list effect) :=
  match passes with
  | [] => None
  | (None, _) :: _ => Some (Fail UnboundLocalError, log ++ [Release])
  | (Some fr, key) :: rest =>
      let '(h, w) := shape fr in
      let shown := annotate fr in
      let log := log ++ [Imshow] in
      if key =? 27 then Some (Done None, log ++ [DestroyAllWindows])
      else if (key =? 99) || (key =? 67) then
        let card_img := region shown (h / 4) (3 * h / 4) (w / 4) (3 * w / 4) in
        Some (lift (detect_card cvtColor_BGR2HSV preprocess_image image_to_string
                      crop card_img),
              log ++ [DestroyAllWindows; Release])
      else if (key =? 113) || (key =? 81) then
        Some (Done None, log ++ [DestroyAllWindows])
      else capture_loop rest log
  end.

Definition capture_card (cam : camera frame) : option (io_result (option card) * list effect) :=
  if negb (opened cam) then Some (Done None, [])
  else capture_loop (events cam) [].

End Capture.

Arguments capture_loop {image gray} cvtColor_BGR2HSV preprocess_image image_to_string crop {frame} shape annotate region passes log.
Arguments capture_card {image gray} cvtColor_BGR2HSV preprocess_image image_to_string crop {frame} shape annotate region cam.

(** *** run *)

#[global] Instance io_result_ret : MRet io_result := fun A a => Done a.

#[global] Instance io_result_bind : MBind io_result := fun A B k m =>
  match m with
  | Done a => k a
  | Fail e => Fail e
  end.

(** [input(...)]: the next line typed, [EOFError] when there is none. *)
Definition input (stdin : list string) : io_result (string * list string) :=
  match stdin with
  | [] => Fail EOFError
  | line :: rest => Done (line, rest)
  end.

(** [UNOGame()] *)
Definition new_game : UNOGame :=
  {| player_hand := []; top_card := None; current_color := None |}.

(** [self.top_card = card] *)
Definition set_top_card (self : UNOGame) (c : card) : UNOGame :=
  {| player_hand := player_hand self;
     top_card := Some c;
     current_color := current_color self |}.

(** [self.top_card = card] followed by [self.melhores_jogadas()], whose
    suggestions are printed. *)
Definition new_top (self : UNOGame) (c : card) : io_result UNOGame :=
  _ ← lift (melhores_jogadas (set_top_card self c));
  mret (set_top_card self c).

(** Options 2 and 5: a card typed becomes the top card. *)
Definition type_top_card (self : UNOGame) (stdin : list string) : io_result (UNOGame * list string) :=
  '(line, stdin) ← input stdin;
  let card_input := Str.strip line in
  if bool_decide (card_input = "") then mret (self, stdin)
  else
    '(self, card) ← lift (parse_manual_input self card_input false);
    match card with
    | Some c => self ← new_top self c; mret (self, stdin)
    | None => mret (self, stdin)
    end.

(** Option 4: a card typed is added to the hand. *)
Definition type_hand_card (self : UNOGame) (stdin : list string) : io_result (UNOGame * list string) :=
  '(line, stdin) ← input stdin;
  let card_input := Str.strip line in
  if bool_decide (card_input = "") then mret (self, stdin)
  else
    '(self, _) ← lift (parse_manual_input self card_input true);
    mret (self, stdin).

(** Option 6: [remove_card_from_hand] reads a line when the hand is not
    empty. *)
Definition remove_typed (self : UNOGame) (stdin : list string) : io_result (UNOGame * list string) :=
  match player_hand self with
  | [] =>
      '(self, _) ← lift (remove_card_from_hand self "");
      mret (self, stdin)
  | _ =>
      '(line, stdin) ← input stdin;
      '(self, _) ← lift (remove_card_from_hand self line);
      mret (self, stdin)
  end.

(** The game, the lines still to be typed, and the cameras that the calls
    of [cv2.VideoCapture] to come will find; when none is left the camera
    does not open. *)
Record session (frame : Type) : Type := {
  game : UNOGame;
  stdin : list string;
  cameras : list (camera frame)
}.

Arguments game {frame} s.
Arguments stdin {frame} s.
Arguments cameras {frame} s.

(** How a pass of the menu ends: back to the menu, or out of the loop. *)
Inductive next (frame : Type) : Type :=
| Again (s : session frame)
| Leave (s : session frame).

Arguments Again {frame} s.
Arguments Leave {frame} s.

Section Run.

Variable image : Type.
Variable gray : Type.
Variable cvtColor_BGR2HSV : image -> list hsv.
Variable preprocess_image : image -> gray.
Variable image_to_string : gray -> string -> string.
Variable crop : image -> image.
Variable frame : Type.
Variable shape : frame -> Z * Z.
Variable annotate : frame -> frame.
Variable region : frame -> Z -> Z -> Z -> Z -> image.

(** Option 1: the card captured, if any, becomes the top card.  [None]:
    the capture does not come to an end. *)
Definition capture_top_card (self : UNOGame) (cams : list (camera frame)) : option (io_result UNOGame * list (camera frame)) :=
  let '(cam, cams) :=
    match cams with
    | [] => ({| opened := false; events := [] |}, [])
    | cam :: cams => (cam, cams)
    end in
  match capture_card cvtColor_BGR2HSV preprocess_image image_to_string crop
          shape annotate region cam with
  | None => None
  | Some (r, _) =>
      Some (card ← r;
            match card with
            | Some c => new_top self c
            | None => mret self
            end, cams)
  end.

(** One pass of the loop of [run]. *)
Definition menu_pass (s : session frame) : option (io_result (next frame)) :=
  match input (stdin s) with
  | Fail e => Some (Fail e)
  | Done (choice, stdin) =>
      if String.eqb choice "1" then
        match capture_top_card (game s) (cameras s) with
        | None => None
        | Some (r, cams) =>
            Some (self ← r;
                  mret (Again {| game := self; stdin := stdin; cameras := cams |}))
        end
      else if String.eqb choice "2" || String.eqb choice "5" then
        Some ('(self, stdin) ← type_top_card (game s) stdin;
              mret (Again {| game := self; stdin := stdin; cameras := cameras s |}))
      else if String.eqb choice "3" then
        Some ('(_, stdin) ← input stdin;
              mret (Again {| game := game s; stdin := stdin; cameras := cameras s |}))
      else if String.eqb choice "4" then
        Some ('(self, stdin) ← type_hand_card (game s) stdin;
              mret (Again {| game := self; stdin := stdin; cameras := cameras s |}))
      else if String.eqb choice "6" then
        Some ('(self, stdin) ← remove_typed (game s) stdin;
              mret (Again {| game := self; stdin := stdin; cameras := cameras s |}))
      else if String.eqb choice "7" then
        Some (mret (Leave {| game := game s; stdin := stdin; cameras := cameras s |}))
      else
        Some (mret (Again {| game := game s; stdin := stdin; cameras := cameras s |}))
  end.

(** The loop of [run], at most [fuel] passes of it.  [None]: the passes
    allowed are used up, or a capture does not come to an end. *)
Fixpoint run_loop (fuel : nat) (s : session frame) : option (io_result (session frame)) :=
  match fuel with
  | O => None
  | S fuel =>
      match menu_pass s with
      | None => None
      | Some (Fail e) => Some (Fail e)
      | Some (Done (Leave s')) => Some (Done s')
      | Some (Done (Again s')) => run_loop fuel s'
      end
  end.

(** Every pass reads a line, so one pass more than there are lines is
    enough. *)
Definition run (s : session frame) : option (io_result (session frame)) :=
  run_loop (S (length (stdin s))) s.

End Run.

Arguments capture_top_card {image gray} cvtColor_BGR2HSV preprocess_image image_to_string crop {frame} shape annotate region self cams.
Arguments menu_pass {image gray} cvtColor_BGR2HSV preprocess_image image_to_string crop {frame} shape annotate region s.
Arguments run_loop {image gray} cvtColor_BGR2HSV preprocess_image image_to_string crop {frame} shape annotate region fuel s.
Arguments run {image gray} cvtColor_BGR2HSV preprocess_image image_to_string crop {frame} shape annotate region s.

(** * Vocabulary of the specification and sample inputs *)

(** The eligibility rules in the words of the specification: a card [c] is
    playable against [reference] when it is a wild (rule 1), when both have
    a colour and the colours agree (rule 2), or when both are number cards
    of one value or both action cards of one action (rule 3). *)
Definition rule1 (c : card) : Prop := exists a, c = WildCard a.

Definition rule2 (reference c : card) : Prop :=
  exists col, get_color c = Some col /\ get_color reference = Some col.

Definition rule3 (reference c : card) : Prop :=
  (exists col col' v, c = NumberCard col v /\ reference = NumberCard col' v) \/
  (exists col col' a, c = ActionCard col a /\ reference = ActionCard col' a).

Definition legal (reference c : card) : Prop :=
  rule1 c \/ rule2 reference c \/ rule3 reference c.

(** The same test as a boolean, by cases on the two cards. *)
Definition playable (reference c : card) : bool :=
  match c, reference with
  | WildCard _, _ => true
  | _, WildCard _ => false
  | NumberCard col v, NumberCard col' v' =>
      bool_decide (col = col') || bool_decide (v = v')
  | ActionCard col a, ActionCard col' a' =>
      bool_decide (col = col') || bool_decide (a = a')
  | NumberCard col _, ActionCard col' _
  | ActionCard col _, NumberCard col' _ => bool_decide (col = col')
  end.

Definition is_number (c : card) : Prop := card_type c = "number".
Definition is_action (c : card) : Prop := card_type c = "action".
Definition is_wild (c : card) : Prop := card_type c = "wild".

#[global] Instance is_number_dec c : Decision (is_number c).
Proof. unfold is_number. apply _. Defined.
#[global] Instance is_action_dec c : Decision (is_action c).
Proof. unfold is_action. apply _. Defined.
#[global] Instance is_wild_dec c : Decision (is_wild c).
Proof. unfold is_wild. apply _. Defined.

(** The chromatic colours. *)
Definition chromatic (c : string) : Prop := c ∈ ["red"; "blue"; "green"; "yellow"].

(** The cards the loop appends: those the test of its body accepts. *)
Definition appended (top c : card) : Prop := jogavel top c = Ok true.

#[global] Instance appended_dec top c : Decision (appended top c).
Proof. unfold appended. apply _. Defined.

(** The number a string of decimal digits denotes, read from the left. *)
Definition decimal_number (l : list ascii) : Z :=
  fold_left (fun acc c => 10 * acc + Str.digit_value c) l 0.

(** The cleaning in the words of the specification: the digits of a text,
    '0' to '9', in their order, every other character stripped. *)
Definition decimal_digit (c : ascii) : bool :=
  match c with
  | "0"%char | "1"%char | "2"%char | "3"%char | "4"%char
  | "5"%char | "6"%char | "7"%char | "8"%char | "9"%char => true
  | _ => false
  end.

Fixpoint strip_non_digits (l : list ascii) : list ascii :=
  match l with
  | [] => []
  | c :: l' =>
      if decimal_digit c then c :: strip_non_digits l' else strip_non_digits l'
  end.

(** The superscript digits U+00B2, U+00B3 and U+00B9: digits for
    [str.isdigit], which [int] does not read. *)
Definition superscript_digit (c : ascii) : bool :=
  match c with
  | "178"%char | "179"%char | "185"%char => true
  | _ => false
  end.


(** A detector to run the definitions on: an image is its HSV pixels and
    the text the recognition reads off it, and the crop keeps all of it. *)
Definition sample_image : Type := list hsv * string.
Definition sample_hsv (img : sample_image) : list hsv := img.1.
Definition sample_preprocess (img : sample_image) : string := img.2.
Definition sample_ocr (text config : string) : string := text.
Definition sample_crop (img : sample_image) : sample_image := img.

(** An image of a thousand red pixels, and one of 1001 black pixels. *)
Definition thousand_red : list hsv := repeat (5, 200, 200) 1000.
Definition black_pixels : list hsv := repeat (0, 0, 0) 1001.

(** The hand and the reference card of the example: Wild, Red-5,
    Blue-Skip, Red-5 against Red-5. *)
Definition example_game : UNOGame :=
  {| player_hand := [ WildCard "wild"; NumberCard "red" 5;
                      ActionCard "blue" "skip"; NumberCard "red" 5 ];
     top_card := Some (NumberCard "red" 5);
     current_color := None |}.

(** A hand of three cards. *)
Definition three_cards : UNOGame :=
  {| player_hand := [NumberCard "red" 5; WildCard "wild"; NumberCard "blue" 1];
     top_card := None;
     current_color := None |}.

(** The text "red" followed by the superscript two, U+00B2. *)
Definition red_superscript_two : string := "red " +:+ chr 178.

(** The cards of the game: a chromatic colour with a value from 0 to 9 or
    one of the three actions, or one of the two wilds. *)
Definition well_formed (c : card) : Prop :=
  match c with
  | NumberCard color value => chromatic color /\ 0 <= value <= 9
  | ActionCard color action =>
      chromatic color /\ action ∈ ["skip"; "reverse"; "draw_two"]
  | WildCard action => action ∈ ["wild"; "wild_draw_four"]
  end.

(** A dark pixel: saturation and value at most 50, and not on the corner
    of the green range, where both are 50 and the hue is green. *)
Definition dark_pixel (p : hsv) : Prop :=
  let '(h, s, v) := p in
  0 <= h <= 180 /\ 0 <= s <= 50 /\ 0 <= v <= 50 /\
  ~ (36 <= h <= 89 /\ s = 50 /\ v = 50).

(** The values the classifier of symbols returns. *)
Definition symbol_in_range (value : symbol) : Prop :=
  match value with
  | SymInt n => 0 <= n <= 9
  | SymStr s => s ∈ ["skip"; "reverse"; "draw_two"; "wild"; "wild_draw_four"]
  | SymNone => True
  end.

(** A pass that decides nothing: a frame is read and the key is none of
    ESC, c, C, q, Q. *)
Definition idle_pass {frame : Type} (p : option frame * Z) : Prop :=
  is_Some p.1 /\ p.2 ∉ [27; 99; 67; 113; 81].

(** The state [run] keeps: the cards held and the top card are cards of
    the game, and no colour is current. *)
Definition game_ok (self : UNOGame) : Prop :=
  Forall well_formed (player_hand self) /\
  (forall c, top_card self = Some c -> well_formed c) /\
  current_color self = None.

(** Frames to run the capture on: a frame is an image of the sample
    detector, of 480 rows and 640 columns, drawing on it and cutting it
    leave it as it is. *)
Definition sample_shape (fr : sample_image) : Z * Z := (480, 640).
Definition sample_annotate (fr : sample_image) : sample_image := fr.
Definition sample_region (fr : sample_image) (r0 r1 c0 c1 : Z) : sample_image := fr.

(** A frame of 1001 black pixels read as "+4", and a session: a card is
    added to the hand, a top card typed, and the menu left. *)
Definition draw_four_frame : sample_image := (black_pixels, "+4").

Definition sample_session : session sample_image :=
  {| game := new_game;
     stdin := ["4"; "red 5"; "2"; " Blue 5 "; "7"; "1"];
     cameras := [] |}.

Definition sample_session_end : session sample_image :=
  {| game := {| player_hand := [NumberCard "red" 5];
                top_card := Some (NumberCard "blue" 5);
                current_color := None |};
     stdin := ["1"];
     cameras := [] |}.

(** ** Tactics *)

(** A bound on the keys of a group, from the key its members share. *)
Ltac key_bound :=
  eapply Forall_impl; [eassumption|];
  let y := fresh "y" in let Hy := fresh "Hy" in
  intros y Hy; simpl in Hy; rewrite Hy; by vm_compute.

(** Case analysis on a membership in a list written out. *)
Ltac elem_cases H :=
  repeat (apply elem_of_cons in H as [H|H]; [subst|]);
  [..|by apply elem_of_nil in H].

(** Case analysis on the comparisons of a goal. *)
Ltac leb_cases :=
  repeat match goal with
         | |- context [?a <=? ?b] => destruct (Z.leb_spec a b)
         end; simpl; try done; try lia.

(** * Properties *)

(** ** The stable sort *)

Section SortFacts.
Context {A : Type} (key : A -> Z).

Lemma insert_by_perm (x : A) (l : list A) : insert_by key x l ≡ₚ x :: l.
Proof.
  induction l as [|y l IH]; simpl; [done|].
  destruct (key x <=? key y); [done|].
  rewrite IH. apply Permutation_swap.
Qed.

Lemma sort_by_perm (l : list A) : sort_by key l ≡ₚ l.
Proof.
  induction l as [|x l IH]; simpl; [done|].
  rewrite insert_by_perm. by f_equiv.
Qed.

(** Past a prefix of strictly smaller keys the insertion goes on. *)
Lemma insert_by_app_lt (x : A) (l1 l2 : list A) :
  Forall (fun y => key y < key x) l1 ->
  insert_by key x (l1 ++ l2) = l1 ++ insert_by key x l2.
Proof.
  induction 1 as [|y l1 Hy _ IH]; simpl; [done|].
  destruct (Z.leb_spec (key x) (key y)); [lia|]. by rewrite IH.
Qed.

(** In front of keys that are not smaller the insertion stops. *)
Lemma insert_by_le (x : A) (l : list A) :
  Forall (fun y => key x <= key y) l -> insert_by key x l = x :: l.
Proof.
  destruct 1 as [|y l Hy _]; simpl; [done|].
  by destruct (Z.leb_spec (key x) (key y)); [|lia].
Qed.

(** Stability: the elements picked by a predicate that holds within one
    key only keep their order. *)
Lemma insert_by_filter (P : A -> Prop) `{!forall x, Decision (P x)} (x : A) (l : list A) :
  (forall a b, P a -> P b -> key a = key b) ->
  filter P (insert_by key x l) = filter P (x :: l).
Proof.
  intros HP. induction l as [|y l IH]; simpl; [done|].
  destruct (Z.leb_spec (key x) (key y)) as [|Hlt]; [done|].
  rewrite (filter_cons _ y), IH, !(filter_cons _ x), (filter_cons _ y).
  repeat case_decide; try done.
  pose proof (HP x y ltac:(done) ltac:(done)). lia.
Qed.

Lemma sort_by_stable (P : A -> Prop) `{!forall x, Decision (P x)} (l : list A) :
  (forall a b, P a -> P b -> key a = key b) ->
  filter P (sort_by key l) = filter P l.
Proof.
  intros HP. induction l as [|x l IH]; simpl; [done|].
  rewrite insert_by_filter, !filter_cons, IH; done.
Qed.

Lemma insert_by_sorted (x : A) (l : list A) :
  StronglySorted (fun a b => key a <= key b) l ->
  StronglySorted (fun a b => key a <= key b) (insert_by key x l).
Proof.
  induction 1 as [|y l Hs IH Hy]; simpl.
  - repeat constructor.
  - destruct (Z.leb_spec (key x) (key y)) as [Hle|Hlt].
    + constructor; [by constructor|].
      constructor; [done|].
      eapply Forall_impl; [exact Hy|]. simpl. intros; lia.
    + constructor; [done|].
      rewrite insert_by_perm. constructor; [lia|done].
Qed.

Lemma sort_by_sorted (l : list A) :
  StronglySorted (fun a b => key a <= key b) (sort_by key l).
Proof.
  induction l as [|x l IH]; simpl; [constructor|]. by apply insert_by_sorted.
Qed.

(** A list sorted by key is determined by the order within each key: two
    such lists with the same elements of every key, in the same order, are
    equal.  So every stable sort by [key] computes [sort_by key]. *)
Lemma stable_sorted_unique (l1 l2 : list A) :
  StronglySorted (fun a b => key a <= key b) l1 ->
  StronglySorted (fun a b => key a <= key b) l2 ->
  (forall k, filter (fun y => key y = k) l1 = filter (fun y => key y = k) l2) ->
  l1 = l2.
Proof.
  intros H1. revert l2.
  induction H1 as [|x l1 Hs1 IH Hx]; intros l2 H2 Hf.
  - destruct l2 as [|y l2]; [done|].
    specialize (Hf (key y)). by rewrite filter_nil, filter_cons_True in Hf.
  - destruct l2 as [|y l2].
    { specialize (Hf (key x)). by rewrite filter_nil, filter_cons_True in Hf. }
    apply StronglySorted_cons in H2 as [Hy Hs2].
    assert (Hxy : key y <= key x).
    { assert (Hin : x ∈ filter (fun z => key z = key x) (y :: l2)).
      { rewrite <- Hf, filter_cons_True by done. apply list_elem_of_here. }
      apply list_elem_of_filter in Hin as [_ [->|Hin]%elem_of_cons]; [lia|].
      rewrite Forall_forall in Hy. by apply Hy. }
    assert (Hyx : key x <= key y).
    { assert (Hin : y ∈ filter (fun z => key z = key y) (x :: l1)).
      { rewrite Hf, filter_cons_True by done. apply list_elem_of_here. }
      apply list_elem_of_filter in Hin as [_ [->|Hin]%elem_of_cons]; [lia|].
      rewrite Forall_forall in Hx. by apply Hx. }
    assert (Hk : key x = key y) by lia.
    pose proof (Hf (key x)) as Hhead.
    rewrite !filter_cons_True in Hhead by done.
    injection Hhead as -> Htail.
    f_equal. apply IH; [done|]. intros k.
    destruct (decide (key y = k)) as [<-|Hne]; [done|].
    specialize (Hf k). by rewrite !filter_cons_False in Hf.
Qed.

Lemma sort_by_unique (l l' : list A) :
  StronglySorted (fun a b => key a <= key b) l' ->
  (forall k, filter (fun y => key y = k) l' = filter (fun y => key y = k) l) ->
  l' = sort_by key l.
Proof.
  intros Hs Hf. apply stable_sorted_unique; [done|apply sort_by_sorted|].
  intros k. rewrite Hf. symmetry. apply sort_by_stable. congruence.
Qed.

End SortFacts.

(** ** The loop of melhores_jogadas *)


Lemma bool_decide_Some {A : Type} `{EqDecision A} (x y : A) :
  bool_decide (Some x = Some y) = bool_decide (x = y).
Proof. apply bool_decide_ext. split; congruence. Qed.

Lemma playable_legal (reference c : card) : playable reference c <-> legal reference c.
Proof.
  unfold legal, rule1, rule2, rule3. split.
  - destruct c as [col v|col a|a], reference as [col' v'|col' a'|a']; simpl;
      rewrite ?orb_True, ?bool_decide_spec; intros H;
      try (destruct H as [->| ->]); try subst col'; try done; eauto 10.
  - intros [[a ->]|[(col & Hc & Hr)|[(col & col' & v & -> & ->)|(col & col' & a & -> & ->)]]];
      simpl; [done| |rewrite orb_True, !bool_decide_spec; auto..].
    destruct c, reference; simpl in *; try done;
      rewrite ?orb_True, ?bool_decide_spec; first [congruence | left; congruence].
Qed.

(** The test of the loop body never raises, and it is the eligibility test. *)
Lemma jogavel_playable (top carta : card) :
  jogavel top carta = Ok (playable top carta).
Proof.
  destruct carta, top; unfold jogavel; simpl;
    rewrite ?bool_decide_Some; repeat case_bool_decide; simpl; try done;
    subst; try done.
Qed.

Lemma jogaveis_loop_filter (top : card) (hand acc : list card) :
  jogaveis_loop top hand acc = Ok (acc ++ filter (fun c => playable top c) hand).
Proof.
  revert acc. induction hand as [|carta rest IH]; intros acc; simpl.
  - by rewrite app_nil_r.
  - rewrite jogavel_playable. simpl. rewrite IH, filter_cons.
    destruct (playable top carta); simpl; [by rewrite <- app_assoc|done].
Qed.

Lemma melhores_jogadas_sorted (hand : list card) (top : card) (cc : option string) :
  melhores_jogadas {| player_hand := hand; top_card := Some top; current_color := cc |}
  = Ok (Some (sort_by sort_key (filter (fun c => playable top c) hand))).
Proof. unfold melhores_jogadas. simpl. by rewrite jogaveis_loop_filter. Qed.

Lemma sort_key_number (c : card) : sort_key c = 0 <-> is_number c.
Proof. by destruct c. Qed.

Lemma sort_key_action (c : card) : sort_key c = 1 <-> is_action c.
Proof. by destruct c. Qed.

Lemma sort_key_wild (c : card) : sort_key c = 2 <-> is_wild c.
Proof. by destruct c. Qed.

Lemma sort_by_same_key {A : Type} (key : A -> Z) (k : Z) (l : list A) :
  Forall (fun x => key x = k) l -> sort_by key l = l.
Proof.
  induction 1 as [|x l Hx Hl IH]; simpl; [done|].
  rewrite IH. apply insert_by_le.
  eapply Forall_impl; [exact Hl|]. simpl. intros; lia.
Qed.


(** The sorted list is the number cards, then the action cards, then the
    wilds, each group in the order of the list sorted. *)
Lemma sort_by_sort_key (l : list card) :
  sort_by sort_key l = filter is_number l ++ filter is_action l ++ filter is_wild l.
Proof.
  induction l as [|c l IH]; simpl; [done|].
  rewrite IH, !filter_cons. clear IH.
  assert (Hn : Forall (fun y => sort_key y = 0) (filter is_number l)).
  { apply Forall_forall. intros y [Hy _]%list_elem_of_filter. by apply sort_key_number. }
  assert (Ha : Forall (fun y => sort_key y = 1) (filter is_action l)).
  { apply Forall_forall. intros y [Hy _]%list_elem_of_filter. by apply sort_key_action. }
  assert (Hw : Forall (fun y => sort_key y = 2) (filter is_wild l)).
  { apply Forall_forall. intros y [Hy _]%list_elem_of_filter. by apply sort_key_wild. }
  destruct c; simpl.
  - apply insert_by_le. rewrite !Forall_app. split_and!; key_bound.
  - rewrite insert_by_app_lt by key_bound.
    f_equal. apply insert_by_le. rewrite !Forall_app. split_and!; key_bound.
  - rewrite insert_by_app_lt by key_bound.
    f_equal. rewrite insert_by_app_lt by key_bound.
    f_equal. apply insert_by_le. key_bound.
Qed.


Lemma appended_playable (top c : card) : appended top c <-> playable top c.
Proof.
  unfold appended. rewrite jogavel_playable.
  destruct (playable top c); simpl; split; done.
Qed.

(** The test of the code is the eligibility test of the specification. *)
Lemma appended_legal (top c : card) : appended top c <-> legal top c.
Proof. by rewrite appended_playable, playable_legal. Qed.

Lemma filter_playable_appended (top : card) (hand : list card) :
  filter (fun c => playable top c) hand = filter (appended top) hand.
Proof. apply list_filter_iff. intros c. by rewrite appended_playable. Qed.

Lemma StronglySorted_lookup_lt {A : Type} (R : relation A) (l : list A) (i j : nat) (x y : A) :
  StronglySorted R l -> (i < j)%nat -> l !! i = Some x -> l !! j = Some y -> R x y.
Proof.
  intros Hs. revert i j. induction Hs as [|a l Hs IH Ha]; intros i j Hij Hi Hj; [done|].
  destruct j as [|j]; [lia|]. destruct i as [|i]; simpl in *.
  - injection Hi as <-. rewrite Forall_forall in Ha. apply Ha.
    by eapply list_elem_of_lookup_2.
  - apply (IH i j); [lia|done..].
Qed.

(** The value of [melhores_jogadas] with a top card: the appended cards in
    three groups. *)
Lemma melhores_jogadas_groups (hand : list card) (top : card) (cc : option string) :
  melhores_jogadas {| player_hand := hand; top_card := Some top; current_color := cc |}
  = Ok (Some (filter is_number (filter (appended top) hand) ++
              filter is_action (filter (appended top) hand) ++
              filter is_wild (filter (appended top) hand))).
Proof.
  by rewrite melhores_jogadas_sorted, sort_by_sort_key, filter_playable_appended.
Qed.

(** ** Claims about the move evaluator *)

(** C1. For every hand and every wild reference card, [melhores_jogadas]
    yields exactly the wild cards of the hand, in hand order: no number
    card and no action card is in the result. *)
Theorem melhores_jogadas_wild_reference (hand : list card) (a : string) (cc : option string) :
  exists out : list card,
    melhores_jogadas {| player_hand := hand; top_card := Some (WildCard a); current_color := cc |}
    = Ok (Some out) /\
    out = filter is_wild hand /\
    Forall (fun c => exists a', c = WildCard a') out.
Proof.
  assert (Hf : filter (fun c => playable (WildCard a) c) hand = filter is_wild hand).
  { apply list_filter_iff. intros [col v|col act|act]; by cbv. }
  exists (filter is_wild hand). split_and!; [|done|].
  - rewrite melhores_jogadas_sorted, Hf. do 2 f_equal.
    apply (sort_by_same_key sort_key 2), Forall_forall.
    intros c [Hc _]%list_elem_of_filter. by apply sort_key_wild.
  - apply Forall_forall. intros c [Hc _]%list_elem_of_filter.
    destruct c; try done. by eexists.
Qed.


(** C2, as stated, fails: the result is not Red-5, Red-5, Blue-Skip, Wild. *)
Lemma example_game_not_as_stated :
  melhores_jogadas example_game
  <> Ok (Some [ NumberCard "red" 5; NumberCard "red" 5;
                ActionCard "blue" "skip"; WildCard "wild" ]).
Proof. vm_compute. intros [=]. Qed.

(** C2, amended. On the hand Wild, Red-5, Blue-Skip, Red-5 with reference
    Red-5 the result is Red-5, Red-5, Wild: Blue-Skip shares neither the
    colour nor the kind of the reference and is left out. *)
Theorem example_game_result :
  melhores_jogadas example_game
  = Ok (Some [ NumberCard "red" 5; NumberCard "red" 5; WildCard "wild" ]) /\
  ~ legal (NumberCard "red" 5) (ActionCard "blue" "skip").
Proof.
  split; [reflexivity|].
  rewrite <- playable_legal. by cbv.
Qed.

(** C3. For distinct chromatic colours [c1], [c2] and a rank [r] in 0..9,
    the one-card hand [NumberCard c1 r] against the reference
    [NumberCard c2 r] yields that card; likewise an action card against an
    action card of another colour and the same action. *)
Theorem melhores_jogadas_cross_color (c1 c2 : string) (r : Z) (a : string) (cc : option string) :
  chromatic c1 -> chromatic c2 -> c1 <> c2 -> 0 <= r <= 9 ->
  a ∈ ["skip"; "reverse"; "draw_two"] ->
  melhores_jogadas {| player_hand := [NumberCard c1 r];
                      top_card := Some (NumberCard c2 r);
                      current_color := cc |}
  = Ok (Some [NumberCard c1 r]) /\
  melhores_jogadas {| player_hand := [ActionCard c1 a];
                      top_card := Some (ActionCard c2 a);
                      current_color := cc |}
  = Ok (Some [ActionCard c1 a]) /\
  ~ rule2 (NumberCard c2 r) (NumberCard c1 r) /\
  ~ rule2 (ActionCard c2 a) (ActionCard c1 a).
Proof.
  intros _ _ Hne _ _. split_and!.
  - rewrite melhores_jogadas_sorted, filter_cons. simpl.
    rewrite (bool_decide_eq_false_2 _ Hne), (bool_decide_eq_true_2 (r = r)) by done.
    done.
  - rewrite melhores_jogadas_sorted, filter_cons. simpl.
    rewrite (bool_decide_eq_false_2 _ Hne), (bool_decide_eq_true_2 (a = a)) by done.
    done.
  - intros (col & [= <-] & [= ->]). done.
  - intros (col & [= <-] & [= ->]). done.
Qed.

Lemma melhores_jogadas_cross_color_red_blue :
  melhores_jogadas {| player_hand := [NumberCard "red" 5];
                      top_card := Some (NumberCard "blue" 5);
                      current_color := None |}
  = Ok (Some [NumberCard "red" 5]).
Proof.
  apply (melhores_jogadas_cross_color "red" "blue" 5 "skip" None);
    [ unfold chromatic; repeat constructor
    | unfold chromatic; repeat constructor
    | discriminate
    | lia
    | repeat constructor ].
Defined.

(** C4. For every hand and reference card the result holds cards of the
    hand only (it is a rearrangement of the subsequence of appended cards),
    no action card stands before a number card, no wild before a number or
    an action card, and the cards of each category stand in their hand
    order: the result is the appended number cards, then the appended action
    cards, then the appended wilds. *)
Theorem melhores_jogadas_category_order (hand : list card) (top : card) (cc : option string) :
  exists out : list card,
    melhores_jogadas {| player_hand := hand; top_card := Some top; current_color := cc |}
    = Ok (Some out) /\
    out ≡ₚ filter (appended top) hand /\
    filter (appended top) hand `sublist_of` hand /\
    (forall (i j : nat) (ci cj : card),
        (i < j)%nat -> out !! i = Some ci -> out !! j = Some cj ->
        (is_action ci -> ~ is_number cj) /\
        (is_wild ci -> ~ is_number cj /\ ~ is_action cj)) /\
    (forall t : string,
        filter (fun c => card_type c = t) out
        = filter (fun c => card_type c = t) (filter (appended top) hand)) /\
    out = filter is_number (filter (appended top) hand) ++
          filter is_action (filter (appended top) hand) ++
          filter is_wild (filter (appended top) hand).
Proof.
  exists (sort_by sort_key (filter (appended top) hand)).
  split_and!.
  - by rewrite melhores_jogadas_sorted, filter_playable_appended.
  - apply sort_by_perm.
  - apply sublist_filter.
  - intros i j ci cj Hij Hi Hj.
    pose proof (StronglySorted_lookup_lt _ _ i j ci cj
                  (sort_by_sorted sort_key _) Hij Hi Hj) as Hle.
    simpl in Hle. unfold is_action, is_number, is_wild.
    destruct ci, cj; simpl; split; try done; vm_compute in Hle; try done;
      intros _; split; done.
  - intros t. apply sort_by_stable. intros a b <- Hb.
    unfold sort_key. by rewrite Hb.
  - apply sort_by_sort_key.
Qed.

(** ** Claims about the detector *)



(** [max] returns a key of the dict whose value no other value exceeds. *)
Lemma max_from_spec (rest : list (string * Z)) (best : string * Z) :
  exists v : Z,
    (max_from best rest, v) ∈ best :: rest /\
    forall kv, kv ∈ best :: rest -> kv.2 <= v.
Proof.
  revert best. induction rest as [|kv rest IH]; intros best; simpl.
  - exists best.2. split.
    + destruct best. simpl. apply list_elem_of_here.
    + intros kv' ->%list_elem_of_singleton. lia.
  - destruct (IH (if best.2 <? kv.2 then kv else best)) as (v & Hin & Hmax).
    exists v. split.
    + apply elem_of_cons in Hin as [Heq|Hin].
      * rewrite Heq. destruct (best.2 <? kv.2).
        -- apply list_elem_of_further, list_elem_of_here.
        -- apply list_elem_of_here.
      * by do 2 apply list_elem_of_further.
    + pose proof (Hmax _ (list_elem_of_here _ _)) as Hb.
      intros kv' [->|[->|Hin']%elem_of_cons]%elem_of_cons.
      * destruct (Z.ltb_spec best.2 kv.2); simpl in Hb; lia.
      * destruct (Z.ltb_spec best.2 kv.2); simpl in Hb; lia.
      * apply Hmax. by apply list_elem_of_further.
Qed.

(** With distinct keys, [d[k]] is the value stored under [k]. *)
Lemma score_of_elem_of (scores : list (string * Z)) (k : string) (v : Z) :
  NoDup scores.*1 -> (k, v) ∈ scores -> score_of scores k = v.
Proof.
  induction scores as [|[k' v'] scores IH]; simpl; intros Hnd Hin.
  - by apply elem_of_nil in Hin.
  - apply NoDup_cons in Hnd as [Hk' Hnd].
    apply elem_of_cons in Hin as [[= -> ->]|Hin].
    + by rewrite String.eqb_refl.
    + destruct (String.eqb_spec k k') as [->|_]; [|by apply IH].
      destruct Hk'. apply list_elem_of_fmap. by exists (k', v).
Qed.

(** The last two lines of [detect_color], for any dict of scores with
    distinct keys none of which is ["unknown"]. *)
Lemma dominant_spec (scores : list (string * Z)) :
  scores <> [] -> NoDup scores.*1 -> "unknown" ∉ scores.*1 ->
  exists c : string,
    (dominant_color ← max_key scores;
     mret (if 1000 <? score_of scores dominant_color
           then dominant_color else "unknown")) = Ok c /\
    (c = "unknown" <-> forall k v, (k, v) ∈ scores -> v <= 1000) /\
    (c <> "unknown" ->
     exists v, (c, v) ∈ scores /\ 1000 < v /\
               forall k' v', (k', v') ∈ scores -> v' <= v).
Proof.
  intros Hne Hnd Hunk. destruct scores as [|kv rest]; [done|]. clear Hne.
  destruct (max_from_spec rest kv) as (v & Hin & Hmax).
  cbn [max_key mbind result_bind mret result_ret].
  rewrite (score_of_elem_of _ _ v Hnd Hin).
  assert (Hkey : max_from kv rest <> "unknown").
  { intros Heq. apply Hunk. rewrite <- Heq.
    apply list_elem_of_fmap. by exists (max_from kv rest, v). }
  destruct (Z.ltb_spec 1000 v) as [Hgt|Hle]; eexists; (split; [reflexivity|]).
  - split.
    + split; [done|]. intros Hall. specialize (Hall _ _ Hin). lia.
    + intros _. exists v. split_and!; [done..|].
      intros k' v' Hin'. apply (Hmax (k', v') Hin').
  - split; [|done]. split; [|done].
    intros _ k' v' Hin'. specialize (Hmax (k', v') Hin'). simpl in Hmax. lia.
Qed.

Lemma color_scores_keys (img : list hsv) :
  (color_scores img).*1 = ["red"; "blue"; "green"; "yellow"; "black"].
Proof. reflexivity. Qed.


Section DetectorFacts.

Variable image : Type.
Variable gray : Type.
Variable cvtColor_BGR2HSV : image -> list hsv.
Variable preprocess_image : image -> gray.
Variable image_to_string : gray -> string -> string.
Variable crop : image -> image.

Local Abbreviation detect_color' := (detect_color cvtColor_BGR2HSV).
Local Abbreviation detect_card_type' := (detect_card_type preprocess_image image_to_string).
Local Abbreviation detect_card' :=
  (detect_card cvtColor_BGR2HSV preprocess_image image_to_string crop).

(** C7, amended. The classifier answers ["unknown"] exactly when no score
    exceeds 1000, that is when the maximum score is at most 1000; otherwise
    it answers a label whose score is the maximum.  A maximum of exactly
    1000 gives ["unknown"]. *)
Theorem detect_color_threshold (img : image) :
  exists c : string,
    detect_color' img = Ok c /\
    (c = "unknown" <->
     forall k v, (k, v) ∈ color_scores (cvtColor_BGR2HSV img) -> v <= 1000) /\
    (c <> "unknown" ->
     exists v, (c, v) ∈ color_scores (cvtColor_BGR2HSV img) /\ 1000 < v /\
               forall k' v', (k', v') ∈ color_scores (cvtColor_BGR2HSV img) -> v' <= v).
Proof.
  unfold detect_color. apply dominant_spec.
  - done.
  - rewrite color_scores_keys. apply (bool_decide_unpack _). by vm_compute.
  - rewrite color_scores_keys. apply (bool_decide_unpack _). by vm_compute.
Qed.

(** C5. When the colour of the cropped image is black and the symbol
    classifier returns a value, the recognizer returns a wild card: the
    matching one for the symbols wild and wild_draw_four, the card with
    action wild for every other value, [None] included. *)
Theorem detect_card_black (img : image) (value : symbol) :
  detect_color' (crop img) = Ok "black" ->
  detect_card_type' (crop img) = Ok value ->
  detect_card' img
  = Ok (Some (WildCard (if bool_decide (value = SymStr "wild_draw_four")
                        then "wild_draw_four" else "wild"))) /\
  detect_card' img <> Ok None.
Proof.
  intros Hc Hv. unfold detect_card. rewrite Hc, Hv.
  cbn [mbind result_bind mret result_ret]. simpl.
  destruct value as [n|s|]; simpl; [done| |done].
  case_bool_decide as Hs.
  - injection Hs as ->. done.
  - unfold Str.mem. simpl. rewrite !orb_false_r.
    destruct (String.eqb_spec s "wild") as [->|_]; simpl; [done|].
    destruct (String.eqb_spec s "wild_draw_four") as [->|_]; simpl; done.
Qed.

(** C6. When the symbol classifier returns a value: if the colour of the
    cropped image is ["unknown"] the recognizer returns [None] whatever the
    value; if the colour is chromatic and the value is wild,
    wild_draw_four or [None], it returns [None] as well. *)
Theorem detect_card_unrecognized (img : image) (value : symbol) :
  detect_card_type' (crop img) = Ok value ->
  (detect_color' (crop img) = Ok "unknown" -> detect_card' img = Ok None) /\
  (forall color : string,
      detect_color' (crop img) = Ok color -> chromatic color ->
      value ∈ [SymStr "wild"; SymStr "wild_draw_four"; SymNone] ->
      detect_card' img = Ok None).
Proof.
  intros Hv. split.
  - intros Hc. unfold detect_card. by rewrite Hc, Hv.
  - intros color Hc Hchr Hval. unfold detect_card. rewrite Hc, Hv.
    cbn [mbind result_bind mret result_ret].
    assert (Hcol : negb (String.eqb color "black")
                   && negb (String.eqb color "unknown") = true).
    { unfold chromatic in Hchr. elem_cases Hchr; reflexivity. }
    rewrite Hcol. elem_cases Hval; reflexivity.
Qed.

End DetectorFacts.

Lemma color_scores_thousand_red :
  color_scores thousand_red
  = [("red", 1000); ("blue", 0); ("green", 0); ("yellow", 0); ("black", 0)].
Proof. by vm_compute. Qed.

(** C7, as stated, fails: on a thousand red pixels the maximum score is
    exactly 1000, not below the threshold, and the classifier answers
    ["unknown"], not the winning label red. *)
Lemma detect_color_at_1000 :
  ("red", 1000) ∈ color_scores thousand_red /\
  (forall k v, (k, v) ∈ color_scores thousand_red -> v <= 1000) /\
  detect_color (image := list hsv) id thousand_red = Ok "unknown" /\
  ~ (detect_color (image := list hsv) id thousand_red = Ok "unknown" <->
     forall k v, (k, v) ∈ color_scores thousand_red -> v < 1000).
Proof.
  assert (Hd : detect_color (image := list hsv) id thousand_red = Ok "unknown")
    by (by vm_compute).
  rewrite color_scores_thousand_red. split_and!.
  - apply list_elem_of_here.
  - intros k v H. elem_cases H; injection H as -> ->; lia.
  - exact Hd.
  - intros [Hlt _]. specialize (Hlt Hd "red" 1000 (list_elem_of_here _ _)). lia.
Qed.

(** A black image read as "+4" is the wild draw four. *)
Lemma detect_card_black_draw_four :
  detect_card sample_hsv sample_preprocess sample_ocr sample_crop (black_pixels, "+4")
  = Ok (Some (WildCard "wild_draw_four")).
Proof.
  apply (detect_card_black sample_image string sample_hsv sample_preprocess
           sample_ocr sample_crop (black_pixels, "+4") (SymStr "wild_draw_four"));
    by vm_compute.
Defined.

(** An image without pixels has no colour; a red image read as "W" is no
    card. *)
Lemma detect_card_unrecognized_samples :
  detect_card sample_hsv sample_preprocess sample_ocr sample_crop ([], "7") = Ok None /\
  detect_card sample_hsv sample_preprocess sample_ocr sample_crop
    (repeat (5, 200, 200) 1001, "W") = Ok None.
Proof.
  split.
  - apply (detect_card_unrecognized sample_image string sample_hsv sample_preprocess
             sample_ocr sample_crop ([], "7") (SymInt 7)); by vm_compute.
  - apply (proj2 (detect_card_unrecognized sample_image string sample_hsv
                    sample_preprocess sample_ocr sample_crop
                    (repeat (5, 200, 200) 1001, "W") (SymStr "wild")
                    ltac:(by vm_compute)) "red").
    + by vm_compute.
    + unfold chromatic. repeat constructor.
    + repeat constructor.
Defined.

(** ** [int] on strings of decimal digits *)

Lemma chars_of_chars (l : list ascii) : Str.chars (Str.of_chars l) = l.
Proof. apply list_ascii_of_string_of_list_ascii. Qed.

Lemma of_chars_chars (s : string) : Str.of_chars (Str.chars s) = s.
Proof. apply string_of_list_ascii_of_string. Qed.

Lemma decimal_not_space (c : ascii) :
  Str.isdecimal_char c = true -> Str.int_space_char c = false.
Proof. destruct c as [[] [] [] [] [] [] [] []]; by vm_compute. Qed.

Lemma decimal_not_sign (c : ascii) :
  Str.isdecimal_char c = true ->
  Str.between 43 43 c = false /\ Str.between 45 45 c = false.
Proof. destruct c as [[] [] [] [] [] [] [] []]; by vm_compute. Qed.

Lemma decimal_value (c : ascii) :
  Str.isdecimal_char c = true -> 0 <= Str.digit_value c <= 9.
Proof. destruct c as [[] [] [] [] [] [] [] []]; by vm_compute. Qed.

Lemma lstrip_chars_none (p : ascii -> bool) (l : list ascii) :
  Forall (fun c => p c = false) l -> Str.lstrip_chars p l = l.
Proof. destruct 1 as [|c l Hc _]; simpl; [done|]. by rewrite Hc. Qed.

Lemma strip_chars_none (p : ascii -> bool) (l : list ascii) :
  Forall (fun c => p c = false) l -> Str.strip_chars p l = l.
Proof.
  intros Hl. unfold Str.strip_chars.
  rewrite (lstrip_chars_none p l Hl), lstrip_chars_none.
  - apply rev_involutive.
  - apply Forall_forall. intros c Hc. rewrite Forall_forall in Hl.
    apply Hl, list_elem_of_In, in_rev. by apply list_elem_of_In.
Qed.


Lemma int_digits_decimal (l : list ascii) (acc : Z) (after_digit : bool) :
  Forall (fun c => Str.isdecimal_char c = true) l ->
  l <> [] \/ after_digit = true ->
  Str.int_digits acc after_digit l
  = Some (fold_left (fun acc c => 10 * acc + Str.digit_value c) l acc).
Proof.
  intros Hl. revert acc after_digit.
  induction Hl as [|c l Hc _ IH]; intros acc after_digit Hne; simpl.
  - by destruct Hne as [?| ->].
  - rewrite Hc. apply IH. by right.
Qed.

Lemma digit_count_decimal (l : list ascii) :
  Forall (fun c => Str.isdecimal_char c = true) l ->
  Str.digit_count l = Z.of_nat (length l).
Proof.
  intros Hl. unfold Str.digit_count. f_equal. f_equal.
  induction Hl as [|c l Hc _ IH]; simpl; [done|]. by rewrite Hc, IH.
Qed.

(** On a non-empty string of decimal digits [int] returns its number,
    unless the digits are more than the limit. *)
Lemma int_decimal_limit (l : list ascii) :
  Forall (fun c => Str.isdecimal_char c = true) l -> l <> [] ->
  Str.int (Str.of_chars l)
  = if Str.max_str_digits <? Z.of_nat (length l) then Raise ValueError
    else Ok (decimal_number l).
Proof.
  intros Hl Hne. unfold Str.int. rewrite chars_of_chars, strip_chars_none.
  - cbv zeta. rewrite (digit_count_decimal l Hl).
    destruct l as [|c l]; [done|]. unfold Str.int_signed.
    apply Forall_cons in Hl as Hcl. destruct Hcl as [Hc _].
    destruct (decimal_not_sign c Hc) as [-> ->].
    by rewrite int_digits_decimal by auto.
  - eapply Forall_impl; [exact Hl|]. apply decimal_not_space.
Qed.

Lemma int_decimal (l : list ascii) :
  Forall (fun c => Str.isdecimal_char c = true) l -> l <> [] ->
  Z.of_nat (length l) <= Str.max_str_digits ->
  Str.int (Str.of_chars l) = Ok (decimal_number l).
Proof.
  intros Hl Hne Hlen. rewrite (int_decimal_limit l Hl Hne).
  by destruct (Z.ltb_spec Str.max_str_digits (Z.of_nat (length l))); [lia|].
Qed.


Lemma fold_decimal_nonneg (l : list ascii) (acc : Z) :
  Forall (fun c => Str.isdecimal_char c = true) l -> 0 <= acc ->
  0 <= fold_left (fun acc c => 10 * acc + Str.digit_value c) l acc.
Proof.
  intros Hl. revert acc.
  induction Hl as [|c l Hc _ IH]; intros acc Hacc; simpl; [done|].
  apply IH. pose proof (decimal_value c Hc). lia.
Qed.

Lemma decimal_number_nonneg (l : list ascii) :
  Forall (fun c => Str.isdecimal_char c = true) l -> 0 <= decimal_number l.
Proof. intros Hl. by apply fold_decimal_nonneg. Qed.

(** ** [int] behind the guard [isdigit] *)

Lemma isdigit_not_space (c : ascii) :
  Str.isdigit_char c = true -> Str.int_space_char c = false.
Proof. destruct c as [[] [] [] [] [] [] [] []]; by vm_compute. Qed.

Lemma isdigit_not_sign (c : ascii) :
  Str.isdigit_char c = true ->
  Str.between 43 43 c = false /\ Str.between 45 45 c = false /\
  Str.between 95 95 c = false.
Proof. destruct c as [[] [] [] [] [] [] [] []]; by vm_compute. Qed.

Lemma forallb_false_Exists {A : Type} (f : A -> bool) (l : list A) :
  forallb f l = false -> Exists (fun x => f x = false) l.
Proof.
  induction l as [|x l IH]; simpl; [done|].
  destruct (f x) eqn:Hx; simpl; [|by left]. intros H. right. by apply IH.
Qed.

Lemma forallb_true_Forall {A : Type} (f : A -> bool) (l : list A) :
  forallb f l = true -> Forall (fun x => f x = true) l.
Proof.
  induction l as [|x l IH]; simpl; [done|].
  intros [Hx Hl]%andb_true_iff. constructor; auto.
Qed.

(** A digit that is not decimal stops the conversion. *)
Lemma int_digits_nondecimal (l : list ascii) (acc : Z) (after_digit : bool) :
  Forall (fun c => Str.isdigit_char c = true) l ->
  Exists (fun c => Str.isdecimal_char c = false) l ->
  Str.int_digits acc after_digit l = None.
Proof.
  intros Hl. revert acc after_digit.
  induction Hl as [|c l Hc _ IH]; intros acc after_digit Hex.
  - by apply Exists_nil in Hex.
  - simpl. destruct (Str.isdecimal_char c) eqn:Hd.
    + apply IH. by apply Exists_cons in Hex as [Hex|Hex]; [congruence|].
    + by destruct (isdigit_not_sign c Hc) as (_ & _ & ->).
Qed.

(** What [int] does on a string that [isdigit] accepts: the number of its
    digits when all are decimal and no more than the limit, [ValueError]
    when one is a superscript or when they are more than the limit. *)
Lemma int_isdigit (s : string) :
  Str.isdigit s = true ->
  Str.int s = if forallb Str.isdecimal_char (Str.chars s)
                 && (Z.of_nat (length (Str.chars s)) <=? Str.max_str_digits)
              then Ok (decimal_number (Str.chars s))
              else Raise ValueError.
Proof.
  unfold Str.isdigit. destruct (Str.chars s) as [|c l] eqn:Hs; [done|].
  intros Hdig%forallb_true_Forall.
  destruct (forallb Str.isdecimal_char (c :: l)) eqn:Hdec.
  - rewrite <- (of_chars_chars s), Hs.
    rewrite int_decimal_limit; [|by apply forallb_true_Forall|done].
    cbn [andb]. rewrite Z.leb_antisym. by destruct (_ <? _).
  - unfold Str.int. rewrite Hs, strip_chars_none.
    2:{ eapply Forall_impl; [exact Hdig|]. apply isdigit_not_space. }
    cbv zeta. unfold Str.int_signed. apply Forall_cons in Hdig as Hcl.
    destruct Hcl as [Hc _]. destruct (isdigit_not_sign c Hc) as (-> & -> & _).
    by rewrite int_digits_nondecimal; [| |apply forallb_false_Exists].
Qed.

(** [int] raises nothing but [ValueError]. *)
Lemma int_raises_ValueError (s : string) (e : exn) :
  Str.int s = Raise e -> e = ValueError.
Proof.
  unfold Str.int. cbv zeta. destruct (Str.int_signed _); [|congruence].
  destruct (_ <? _); congruence.
Qed.

(** ** The digits of the specification and those of [isdigit] *)

Lemma isdecimal_decimal_digit (c : ascii) :
  Str.isdecimal_char c = decimal_digit c.
Proof. destruct c as [[] [] [] [] [] [] [] []]; by vm_compute. Qed.

Lemma isdigit_decimal_or_superscript (c : ascii) :
  Str.isdigit_char c = decimal_digit c || superscript_digit c.
Proof. destruct c as [[] [] [] [] [] [] [] []]; by vm_compute. Qed.

Lemma superscript_not_decimal (c : ascii) :
  superscript_digit c = true ->
  Str.isdigit_char c = true /\ Str.isdecimal_char c = false.
Proof. destruct c as [[] [] [] [] [] [] [] []]; by vm_compute. Qed.

Lemma strip_non_digits_decimal (l : list ascii) :
  Forall (fun c => Str.isdecimal_char c = true) (strip_non_digits l).
Proof.
  induction l as [|c l IH]; simpl; [constructor|].
  destruct (decimal_digit c) eqn:Hc; [|done].
  constructor; [|done]. by rewrite isdecimal_decimal_digit.
Qed.

Lemma filter_isdigit_Forall (l : list ascii) :
  Forall (fun c => Str.isdigit_char c = true) (List.filter Str.isdigit_char l).
Proof.
  apply Forall_forall. intros c Hc%list_elem_of_In%filter_In. by destruct Hc.
Qed.

(** Without superscript digits, the characters [isdigit] keeps are those
    the specification keeps. *)
Lemma filter_isdigit_no_superscript (l : list ascii) :
  existsb superscript_digit l = false ->
  List.filter Str.isdigit_char l = strip_non_digits l.
Proof.
  induction l as [|c l IH]; simpl; [done|].
  intros [Hc Hl]%orb_false_iff.
  rewrite isdigit_decimal_or_superscript, Hc, orb_false_r, (IH Hl).
  by destruct (decimal_digit c).
Qed.

(** A superscript digit is kept, and is not decimal. *)
Lemma filter_isdigit_superscript (l : list ascii) :
  existsb superscript_digit l = true ->
  Exists (fun c => Str.isdecimal_char c = false) (List.filter Str.isdigit_char l).
Proof.
  induction l as [|c l IH]; simpl; [done|].
  destruct (superscript_digit c) eqn:Hc; simpl.
  - intros _. destruct (superscript_not_decimal c Hc) as [-> Hd]. by left.
  - intros Hl. destruct (Str.isdigit_char c); [right|]; by apply IH.
Qed.

(** On digits of which one is not decimal [int] raises. *)
Lemma int_nondecimal (l : list ascii) :
  Forall (fun c => Str.isdigit_char c = true) l ->
  Exists (fun c => Str.isdecimal_char c = false) l ->
  Str.int (Str.of_chars l) = Raise ValueError.
Proof.
  intros Hl Hex. unfold Str.int. rewrite chars_of_chars, strip_chars_none.
  2:{ eapply Forall_impl; [exact Hl|]. apply isdigit_not_space. }
  cbv zeta. destruct l as [|c l]; [by apply Exists_nil in Hex|].
  unfold Str.int_signed. apply Forall_cons in Hl as Hcl.
  destruct Hcl as [Hc _]. destruct (isdigit_not_sign c Hc) as (-> & -> & _).
  by rewrite int_digits_nondecimal.
Qed.

Section SymbolFacts.

Variable image : Type.
Variable gray : Type.
Variable preprocess_image : image -> gray.
Variable image_to_string : gray -> string -> string.

Local Abbreviation detect_card_type' :=
  (detect_card_type preprocess_image image_to_string).
Local Abbreviation recognized_text' :=
  (recognized_text preprocess_image image_to_string).
Local Abbreviation clean_text' :=
  (clean_text preprocess_image image_to_string).

(** The function in terms of the recognized text and its digits. *)
Lemma detect_card_type_eq (img : image) :
  detect_card_type' img
  = match first_special (recognized_text' img) special_cards with
    | Some name => Ok (SymStr name)
    | None =>
        if bool_decide (clean_text' img = "") then Ok SymNone
        else
          number ← Str.int (clean_text' img);
          if (0 <=? number) && (number <=? 9) then Ok (SymInt number)
          else Ok SymNone
    end.
Proof. reflexivity. Qed.

(** Without a symbol of [special_cards] in the recognized text, the result
    by the digits of the text. *)
Lemma detect_card_type_no_symbol (img : image) :
  first_special (recognized_text' img) special_cards = None ->
  detect_card_type' img
  = if existsb superscript_digit (Str.chars (recognized_text' img))
    then Raise ValueError
    else
      if bool_decide (strip_non_digits (Str.chars (recognized_text' img)) = [])
      then Ok SymNone
      else if 4300 <? Z.of_nat (length (strip_non_digits (Str.chars (recognized_text' img))))
      then Raise ValueError
      else if decimal_number (strip_non_digits (Str.chars (recognized_text' img))) <=? 9
      then Ok (SymInt (decimal_number (strip_non_digits (Str.chars (recognized_text' img)))))
      else Ok SymNone.
Proof.
  intros Hno. rewrite detect_card_type_eq, Hno. unfold clean_text, Str.digits_of.
  set (l := Str.chars (recognized_text' img)).
  destruct (existsb superscript_digit l) eqn:Hsup.
  - pose proof (filter_isdigit_superscript l Hsup) as Hex.
    rewrite bool_decide_eq_false_2.
    2:{ intros Heq. apply (f_equal Str.chars) in Heq.
        rewrite chars_of_chars in Heq. rewrite Heq in Hex.
        by apply Exists_nil in Hex. }
    by rewrite int_nondecimal; [|apply filter_isdigit_Forall|].
  - rewrite (filter_isdigit_no_superscript l Hsup).
    set (ds := strip_non_digits l).
    pose proof (strip_non_digits_decimal l) as Hds. fold ds in Hds.
    destruct (decide (ds = [])) as [Hnil|Hnil].
    + by rewrite Hnil, !bool_decide_eq_true_2.
    + rewrite (bool_decide_eq_false_2 (ds = [])) by done.
      rewrite bool_decide_eq_false_2.
      2:{ intros Heq. apply (f_equal Str.chars) in Heq.
          by rewrite chars_of_chars in Heq. }
      rewrite (int_decimal_limit ds Hds Hnil). unfold Str.max_str_digits.
      destruct (4300 <? Z.of_nat (length ds)); [done|].
      cbn [mbind result_bind].
      pose proof (decimal_number_nonneg ds Hds).
      destruct (Z.leb_spec 0 (decimal_number ds)); [|lia].
      by destruct (decimal_number ds <=? 9).
Qed.

(** The classifier of symbols raises on two kinds of text only, both
    without a symbol of [special_cards]: a text with a superscript digit,
    and a text of more than 4300 digits.  The exception is [ValueError]. *)
Lemma detect_card_type_raises (img : image) (e : exn) :
  detect_card_type' img = Raise e <->
  e = ValueError /\
  first_special (recognized_text' img) special_cards = None /\
  (existsb superscript_digit (Str.chars (recognized_text' img)) = true \/
   4300 < Z.of_nat (length (strip_non_digits (Str.chars (recognized_text' img))))).
Proof.
  destruct (first_special (recognized_text' img) special_cards) as [name|] eqn:Hno.
  { rewrite detect_card_type_eq, Hno. split; [done|]. by intros (_ & ? & _). }
  rewrite (detect_card_type_no_symbol img Hno).
  destruct (existsb superscript_digit _).
  { split; [intros [= <-]|intros (-> & _)]; auto. }
  case_bool_decide as Hnil.
  { split; [done|]. intros (_ & _ & [?|Hlen]); [done|].
    rewrite Hnil in Hlen. simpl in Hlen. lia. }
  destruct (Z.ltb_spec 4300 (Z.of_nat (length (strip_non_digits
              (Str.chars (recognized_text' img)))))) as [Hlen|Hlen].
  { split; [intros [= <-]|intros (-> & _)]; auto. }
  split.
  - by destruct (_ <=? 9).
  - intros (_ & _ & [?|?]); [done|lia].
Qed.


End SymbolFacts.


(** The classifier of colours always returns, and returns one of six
    labels. *)
Lemma detect_color_returns {image : Type} (cvtColor_BGR2HSV : image -> list hsv) (img : image) :
  exists c : string,
    detect_color cvtColor_BGR2HSV img = Ok c /\
    c ∈ ["red"; "blue"; "green"; "yellow"; "black"; "unknown"].
Proof.
  destruct (dominant_spec (color_scores (cvtColor_BGR2HSV img)))
    as (c & Hc & _ & Hkey).
  - done.
  - rewrite color_scores_keys. apply (bool_decide_unpack _). by vm_compute.
  - rewrite color_scores_keys. apply (bool_decide_unpack _). by vm_compute.
  - exists c. split; [exact Hc|].
    destruct (decide (c = "unknown")) as [->|Hne]; [repeat constructor|].
    destruct (Hkey Hne) as (v & Hin & _).
    apply (list_elem_of_fmap_2 fst) in Hin. rewrite color_scores_keys in Hin.
    simpl in Hin. elem_cases Hin; repeat constructor.
Qed.

(** On a text without superscript digits, as every text made of the
    characters of the whitelist is, and of 4300 digits at most, the
    classifier of symbols returns. *)
Lemma detect_card_type_returns {image gray : Type}
    (preprocess_image : image -> gray) (image_to_string : gray -> string -> string)
    (img : image) :
  existsb superscript_digit
    (Str.chars (recognized_text preprocess_image image_to_string img)) = false ->
  Z.of_nat (length (strip_non_digits
    (Str.chars (recognized_text preprocess_image image_to_string img)))) <= 4300 ->
  exists value : symbol,
    detect_card_type preprocess_image image_to_string img = Ok value.
Proof.
  intros Hsup Hlen.
  destruct (detect_card_type preprocess_image image_to_string img)
    as [value|e] eqn:Hv; [by exists value|].
  apply detect_card_type_raises in Hv as (_ & _ & [Hs|Hl]); [congruence|lia].
Qed.



(** ** Claims about the hand *)


(** C9, as stated, fails: index 0 is not reported as out of range.  It is
    the cancel sentinel, reported as a cancellation. *)
Lemma remove_card_from_hand_zero :
  remove_card_from_hand three_cards "0" = Ok (three_cards, Cancelled) /\
  remove_card_from_hand three_cards "0" <> Ok (three_cards, InvalidNumber).
Proof. split; by vm_compute. Qed.

Lemma pop_lookup (l : list card) (i : nat) (c : card) :
  l !! i = Some c -> pop l (Z.of_nat i) = Ok (c, delete i l).
Proof.
  intros Hi. unfold pop.
  assert (Hge : (Z.of_nat i <? 0) = false) by (apply Z.ltb_ge; lia).
  by rewrite !Hge, Nat2Z.id, Hi.
Qed.

(** With a card in hand a line is read and converted. *)
Lemma remove_card_from_hand_read (self : UNOGame) (line : string) :
  player_hand self <> [] ->
  remove_card_from_hand self line
  = match Str.int line with
    | Raise ValueError => Ok (self, InvalidInput)
    | Raise e => Raise e
    | Ok choice =>
        if choice =? 0 then Ok (self, Cancelled)
        else if (1 <=? choice) && (choice <=? Z.of_nat (length (player_hand self))) then
          '(removed, hand) ← pop (player_hand self) (choice - 1);
          Ok (set_player_hand self hand, Removed removed)
        else Ok (self, InvalidNumber)
    end.
Proof. intros Hne. unfold remove_card_from_hand. by destruct (player_hand self). Qed.

(** C9, amended. With an empty hand nothing is read and nothing removed.
    Otherwise, for a line that [int] reads as [choice]: 0 cancels and
    leaves the hand as it is; a negative [choice] or one above the length
    is reported as an invalid number and leaves the hand as it is; a
    [choice] in 1..length removes the card at that one-based position,
    reports it, and keeps the other cards in their order. *)
Theorem remove_card_from_hand_index (self : UNOGame) (line : string) (choice : Z) :
  Str.int line = Ok choice ->
  (player_hand self = [] ->
   remove_card_from_hand self line = Ok (self, EmptyHand)) /\
  (player_hand self <> [] -> choice = 0 ->
   remove_card_from_hand self line = Ok (self, Cancelled)) /\
  (player_hand self <> [] ->
   choice < 0 \/ Z.of_nat (length (player_hand self)) < choice ->
   remove_card_from_hand self line = Ok (self, InvalidNumber)) /\
  (1 <= choice <= Z.of_nat (length (player_hand self)) ->
   exists c : card,
     player_hand self !! Z.to_nat (choice - 1) = Some c /\
     remove_card_from_hand self line
     = Ok (set_player_hand self (delete (Z.to_nat (choice - 1)) (player_hand self)),
           Removed c) /\
     delete (Z.to_nat (choice - 1)) (player_hand self)
     = take (Z.to_nat (choice - 1)) (player_hand self)
       ++ drop (Z.to_nat choice) (player_hand self)).
Proof.
  intros Hint. split_and!.
  - intros Hh. unfold remove_card_from_hand. by rewrite Hh.
  - intros Hne ->. by rewrite remove_card_from_hand_read, Hint.
  - intros Hne Hout. rewrite remove_card_from_hand_read, Hint by done.
    destruct (Z.eqb_spec choice 0); [lia|].
    destruct (Z.leb_spec 1 choice); simpl; [|done].
    destruct (Z.leb_spec choice (Z.of_nat (length (player_hand self)))); [lia|done].
  - intros Hin.
    destruct (lookup_lt_is_Some_2 (player_hand self) (Z.to_nat (choice - 1)))
      as [c Hc]; [lia|].
    exists c. split_and!; [done| |].
    + rewrite remove_card_from_hand_read, Hint
        by (intros Hh; rewrite Hh in Hin; simpl in Hin; lia).
      destruct (Z.eqb_spec choice 0); [lia|].
      destruct (Z.leb_spec 1 choice); [|lia].
      destruct (Z.leb_spec choice (Z.of_nat (length (player_hand self)))); [|lia].
      simpl andb. cbv iota.
      replace (choice - 1) with (Z.of_nat (Z.to_nat (choice - 1))) at 1 by lia.
      by rewrite (pop_lookup _ _ _ Hc).
    + rewrite delete_take_drop. do 2 f_equal. lia.
Qed.

(** Removing the first of three cards. *)
Lemma remove_card_from_hand_first :
  exists c : card,
    player_hand three_cards !! Z.to_nat (1 - 1) = Some c /\
    remove_card_from_hand three_cards "1"
    = Ok (set_player_hand three_cards
            (delete (Z.to_nat (1 - 1)) (player_hand three_cards)),
          Removed c) /\
    delete (Z.to_nat (1 - 1)) (player_hand three_cards)
    = take (Z.to_nat (1 - 1)) (player_hand three_cards)
      ++ drop (Z.to_nat 1) (player_hand three_cards).
Proof.
  apply (proj2 (proj2 (proj2 (remove_card_from_hand_index three_cards "1" 1
                                ltac:(by vm_compute))))).
  simpl. lia.
Defined.

(** ** When the manual parser raises *)

(** The inputs on which [parse_manual_input] raises: two tokens, a
    chromatic colour, and a value that [isdigit] accepts although one of
    its digits is not decimal or although it has more than 4300 digits.
    The exception is [ValueError]. *)
Lemma parse_manual_input_raises (self : UNOGame) (text : string) (adicionar_na_mao : bool) (e : exn) :
  parse_manual_input self text adicionar_na_mao = Raise e <->
  e = ValueError /\
  exists color value : string,
    Str.split (Str.lower text) = [color; value] /\
    Str.mem color ["red"; "blue"; "green"; "yellow"] = true /\
    Str.isdigit value = true /\
    (forallb Str.isdecimal_char (Str.chars value) = false \/
     4300 < Z.of_nat (length (Str.chars value))).
Proof.
  unfold parse_manual_input.
  destruct (Str.split (Str.lower text)) as [|color [|value [|third rest]]].
  - split; [done|]. by intros (_ & ? & ? & ? & _).
  - split; [by destruct (Str.mem color _)|]. by intros (_ & ? & ? & ? & _).
  - destruct (Str.mem color ["red"; "blue"; "green"; "yellow"]) eqn:Hcolor.
    2:{ split; [done|]. intros (_ & ? & ? & [= <- <-] & Hc & _). congruence. }
    destruct (Str.isdigit value) eqn:Hdigit.
    2:{ cbn [mbind result_bind mret result_ret].
        split; [by destruct (Str.mem value _)|].
        intros (_ & ? & ? & [= <- <-] & _ & Hd & _). congruence. }
    rewrite (int_isdigit value Hdigit). unfold Str.max_str_digits.
    destruct (forallb Str.isdecimal_char (Str.chars value)) eqn:Hdec;
      destruct (Z.leb_spec (Z.of_nat (length (Str.chars value))) 4300) as [Hlen|Hlen];
      cbn [andb mbind result_bind mret result_ret].
    + split.
      * destruct (_ && _); [done|]. by destruct (Str.mem value _).
      * intros (_ & ? & ? & [= <- <-] & _ & _ & [Hd|Hl]); [congruence|lia].
    + split.
      * intros [= <-]. split; [done|]. exists color, value. auto.
      * by intros [-> _].
    + split.
      * intros [= <-]. split; [done|]. exists color, value. auto.
      * by intros [-> _].
    + split.
      * intros [= <-]. split; [done|]. exists color, value. auto.
      * by intros [-> _].
  - split; [done|]. by intros (_ & ? & ? & ? & _).
Qed.

(** An input of decimal digits only, 4300 at most, is never the raising
    one: the parser returns on every text whose value token has no
    superscript digit and no more digits than that. *)
Lemma parse_manual_input_returns (self : UNOGame) (text : string) (adicionar_na_mao : bool) :
  (forall color value,
      Str.split (Str.lower text) = [color; value] ->
      Str.isdigit value = true ->
      forallb Str.isdecimal_char (Str.chars value) = true /\
      Z.of_nat (length (Str.chars value)) <= 4300) ->
  exists (self' : UNOGame) (c : option card),
    parse_manual_input self text adicionar_na_mao = Ok (self', c).
Proof.
  intros Hdec.
  destruct (parse_manual_input self text adicionar_na_mao) as [[self' c]|e] eqn:Hp.
  - by exists self', c.
  - apply parse_manual_input_raises in Hp as (_ & color & value & Hs & _ & Hd & Hn).
    destruct (Hdec color value Hs Hd) as [Hall Hlen].
    destruct Hn as [Hn|Hn]; [congruence|lia].
Qed.

(** ** Claims about the manual parser *)

(** The examples of the specification. *)
Example parse_red_5 (self : UNOGame) :
  parse_manual_input self "red 5" false = Ok (self, Some (NumberCard "red" 5)).
Proof. reflexivity. Qed.

Example parse_blue_skip (self : UNOGame) :
  parse_manual_input self "blue skip" true
  = Ok (set_player_hand self (player_hand self ++ [ActionCard "blue" "skip"]),
        Some (ActionCard "blue" "skip")).
Proof. reflexivity. Qed.

Example parse_wild_draw_four (self : UNOGame) :
  parse_manual_input self "wild_draw_four" false
  = Ok (self, Some (WildCard "wild_draw_four")).
Proof. reflexivity. Qed.

Example parse_invalid (self : UNOGame) :
  parse_manual_input self "purple 5" false = Ok (self, None) /\
  parse_manual_input self "red 10" false = Ok (self, None) /\
  parse_manual_input self "" false = Ok (self, None).
Proof. by split_and!. Qed.


(** C8 does not hold of the code: the guard [value.isdigit()] accepts the
    superscript two, on which [int] raises [ValueError]. *)
Theorem parse_manual_input_superscript (self : UNOGame) (adicionar_na_mao : bool) :
  Str.isdigit (chr 178) = true /\
  Str.int (chr 178) = Raise ValueError /\
  parse_manual_input self red_superscript_two adicionar_na_mao = Raise ValueError.
Proof. by split_and!. Qed.

(** * Further properties *)

(** ** More on the move evaluator *)

(** X1. The function never raises: the subscript of the colour, which a wild
    card lacks, is reached for number and action cards only. *)
Theorem melhores_jogadas_never_raises (self : UNOGame) :
  exists r : option (list card),
    melhores_jogadas self = Ok r /\ (r = None <-> top_card self = None).
Proof.
  destruct self as [hand [top|] cc].
  - rewrite melhores_jogadas_sorted. eexists. by split.
  - by exists None.
Qed.

(** X2. A card is suggested exactly when it is in the hand and one of the
    three rules holds of it, and it is suggested as often as it is held. *)
Theorem melhores_jogadas_suggests (hand : list card) (top : card) (cc : option string) :
  exists out : list card,
    melhores_jogadas {| player_hand := hand; top_card := Some top; current_color := cc |}
    = Ok (Some out) /\
    (forall c, c ∈ out <-> c ∈ hand /\ legal top c) /\
    (forall c, legal top c ->
               length (filter (fun c' => c' = c) out)
               = length (filter (fun c' => c' = c) hand)).
Proof.
  exists (sort_by sort_key (filter (fun c => playable top c) hand)).
  split_and!.
  - apply melhores_jogadas_sorted.
  - intros c. rewrite sort_by_perm, list_elem_of_filter, playable_legal. tauto.
  - intros c Hc. rewrite sort_by_perm, list_filter_filter.
    f_equal. apply list_filter_iff. intros c'. split; [by intros [? _]|].
    intros ->. split; [done|]. by apply playable_legal.
Qed.

Lemma sort_by_sorted_id {A : Type} (key : A -> Z) (l : list A) :
  StronglySorted (fun a b => key a <= key b) l -> sort_by key l = l.
Proof. intros Hs. symmetry. by apply sort_by_unique. Qed.

Lemma filter_Forall_id {A : Type} (P : A -> Prop) `{!forall x, Decision (P x)} (l : list A) :
  Forall P l -> filter P l = l.
Proof.
  induction 1 as [|x l Hx _ IH]; [done|]. by rewrite filter_cons_True, IH.
Qed.

(** X3. Suggesting again from the suggestions changes nothing: all of them
    are playable and they are in order already. *)
Theorem melhores_jogadas_idempotent (hand out : list card) (top : card) (cc : option string) :
  melhores_jogadas {| player_hand := hand; top_card := Some top; current_color := cc |}
  = Ok (Some out) ->
  melhores_jogadas {| player_hand := out; top_card := Some top; current_color := cc |}
  = Ok (Some out).
Proof.
  rewrite !melhores_jogadas_sorted. intros [= <-].
  set (chosen := filter (fun c => playable top c) hand).
  rewrite filter_Forall_id.
  - by rewrite sort_by_sorted_id by apply sort_by_sorted.
  - apply Forall_forall. intros c. rewrite sort_by_perm.
    by intros [Hc _]%list_elem_of_filter.
Qed.

Lemma melhores_jogadas_idempotent_example :
  melhores_jogadas {| player_hand := [NumberCard "red" 5; NumberCard "red" 5; WildCard "wild"];
                      top_card := Some (NumberCard "red" 5);
                      current_color := None |}
  = Ok (Some [NumberCard "red" 5; NumberCard "red" 5; WildCard "wild"]).
Proof.
  apply (melhores_jogadas_idempotent (player_hand example_game)). by vm_compute.
Defined.

(** ** More on the hand *)


Lemma set_player_hand_same (self : UNOGame) :
  set_player_hand self (player_hand self) = self.
Proof. by destruct self. Qed.

(** The ways the function ends. *)
Lemma remove_card_from_hand_cases (self : UNOGame) (line : string) :
  exists (self' : UNOGame) (r : removal),
    remove_card_from_hand self line = Ok (self', r) /\
    top_card self' = top_card self /\
    current_color self' = current_color self /\
    ((exists (c : card) (i : nat),
         r = Removed c /\ player_hand self !! i = Some c /\
         player_hand self' = delete i (player_hand self)) \/
     ((forall c, r <> Removed c) /\ self' = self)).
Proof.
  destruct (decide (player_hand self = [])) as [Hh|Hne].
  { exists self, EmptyHand. unfold remove_card_from_hand. rewrite Hh.
    split_and!; [done..|]. by right. }
  rewrite remove_card_from_hand_read by done.
  destruct (Str.int line) as [choice|e] eqn:Hint.
  2:{ apply int_raises_ValueError in Hint as ->.
      exists self, InvalidInput. split_and!; [done..|]. by right. }
  destruct (Z.eqb_spec choice 0).
  { exists self, Cancelled. split_and!; [done..|]. by right. }
  destruct (Z.leb_spec 1 choice); cbn [andb].
  2:{ exists self, InvalidNumber. split_and!; [done..|]. by right. }
  destruct (Z.leb_spec choice (Z.of_nat (length (player_hand self)))).
  2:{ exists self, InvalidNumber. split_and!; [done..|]. by right. }
  destruct (lookup_lt_is_Some_2 (player_hand self) (Z.to_nat (choice - 1)))
    as [c Hc]; [lia|].
  assert (Hpop : pop (player_hand self) (choice - 1)
                 = Ok (c, delete (Z.to_nat (choice - 1)) (player_hand self))).
  { rewrite <- (pop_lookup _ _ _ Hc). f_equal. lia. }
  rewrite Hpop. cbn [mbind result_bind].
  eexists _, (Removed c). split_and!; [done..|].
  left. by exists c, (Z.to_nat (choice - 1)).
Qed.

(** X4. The function never raises, whatever the hand and the line typed, and
    it touches the hand only: when it reports a removal the card reported
    is the one deleted and the hand is one card shorter, in every other
    case the game is as it was. *)
Theorem remove_card_from_hand_frame (self : UNOGame) (line : string) :
  exists (self' : UNOGame) (r : removal),
    remove_card_from_hand self line = Ok (self', r) /\
    top_card self' = top_card self /\
    current_color self' = current_color self /\
    player_hand self' `sublist_of` player_hand self /\
    match r with
    | Removed c =>
        c ∈ player_hand self /\
        S (length (player_hand self')) = length (player_hand self)
    | _ => self' = self
    end.
Proof.
  destruct (remove_card_from_hand_cases self line)
    as (self' & r & Hr & Htop & Hcc & Hcase).
  exists self', r. split_and!; [done..| |].
  - destruct Hcase as [(c & i & _ & _ & ->)|[_ ->]]; [apply sublist_delete|done].
  - destruct Hcase as [(c & i & -> & Hi & ->)|[Hn ->]].
    + split; [by eapply list_elem_of_lookup_2|].
      rewrite length_delete by eauto.
      apply lookup_lt_Some in Hi. lia.
    + destruct r; try done. by destruct (Hn c).
Qed.

(** ** More on the manual parser *)

Lemma mem_elem_of (x : string) (l : list string) :
  Str.mem x l = true <-> x ∈ l.
Proof.
  unfold Str.mem. induction l as [|y l IH]; simpl.
  - split; [done|]. by intros ?%elem_of_nil.
  - rewrite elem_of_cons, <- IH.
    destruct (String.eqb_spec x y) as [->|Hne]; simpl; [by split; auto|].
    split; [auto|]. by intros [?|?].
Qed.

(** What a returning call gives: the game it returns and the card, by the
    flag, and the shape of the card. *)
Lemma parse_manual_input_ok (self self' : UNOGame) (text : string) (adicionar_na_mao : bool) (r : option card) :
  parse_manual_input self text adicionar_na_mao = Ok (self', r) ->
  match r with
  | Some c =>
      well_formed c /\
      self' = (if adicionar_na_mao
               then set_player_hand self (player_hand self ++ [c]) else self)
  | None => self' = self
  end.
Proof.
  unfold parse_manual_input, add_and_return.
  destruct (Str.split (Str.lower text)) as [|color [|value [|third rest]]].
  - by intros [= <- <-].
  - destruct (Str.mem color ["wild"; "wild_draw_four"]) eqn:Hw.
    + intros [= <- <-]. split; [|done]. by apply mem_elem_of.
    + by intros [= <- <-].
  - destruct (Str.mem color ["red"; "blue"; "green"; "yellow"]) eqn:Hcolor.
    2:{ by intros [= <- <-]. }
    apply mem_elem_of in Hcolor.
    destruct (Str.isdigit value) eqn:Hdigit.
    + rewrite (int_isdigit value Hdigit).
      destruct (_ && (_ <=? Str.max_str_digits)); [|done].
      cbn [mbind result_bind mret result_ret].
      destruct (Z.leb_spec 0 (decimal_number (Str.chars value)));
        destruct (Z.leb_spec (decimal_number (Str.chars value)) 9); cbn [andb].
      * intros [= <- <-]. by split.
      * destruct (Str.mem value _) eqn:Ha; intros [= <- <-]; [|done].
        split; [|done]. split; [done|]. by apply mem_elem_of.
      * destruct (Str.mem value _) eqn:Ha; intros [= <- <-]; [|done].
        split; [|done]. split; [done|]. by apply mem_elem_of.
      * destruct (Str.mem value _) eqn:Ha; intros [= <- <-]; [|done].
        split; [|done]. split; [done|]. by apply mem_elem_of.
    + cbn [mbind result_bind mret result_ret].
      destruct (Str.mem value _) eqn:Ha; intros [= <- <-]; [|done].
      split; [|done]. split; [done|]. by apply mem_elem_of.
  - by intros [= <- <-].
Qed.

(** X6. Every card the parser returns is a card of the game. *)
Theorem parse_manual_input_well_formed (self self' : UNOGame) (text : string) (adicionar_na_mao : bool) (c : card) :
  parse_manual_input self text adicionar_na_mao = Ok (self', Some c) ->
  well_formed c.
Proof. intros H. by destruct (parse_manual_input_ok _ _ _ _ _ H). Qed.

(** X7. The parser changes the game in one way only: with the flag set and a
    card returned, that card is appended to the hand; the top card is
    never touched. *)
Theorem parse_manual_input_frame (self self' : UNOGame) (text : string) (adicionar_na_mao : bool) (r : option card) :
  parse_manual_input self text adicionar_na_mao = Ok (self', r) ->
  top_card self' = top_card self /\
  current_color self' = current_color self /\
  player_hand self'
  = match r with
    | Some c => if adicionar_na_mao then player_hand self ++ [c] else player_hand self
    | None => player_hand self
    end.
Proof.
  intros H. apply parse_manual_input_ok in H.
  destruct r as [c|]; [destruct H as [_ ->]|by subst].
  by destruct adicionar_na_mao.
Qed.

(** X8. Parsing the text the program prints for a card gives the card back:
    every card of the game can be entered by hand, as it is shown. *)
Theorem parse_manual_input_card_text (self : UNOGame) (c : card) (adicionar_na_mao : bool) :
  well_formed c ->
  parse_manual_input self (card_text c) adicionar_na_mao
  = Ok (add_and_return self adicionar_na_mao c).
Proof.
  destruct c as [color value|color action|action]; simpl.
  - intros [Hc Hv]. unfold chromatic in Hc.
    assert (Hcases : value = 0 \/ value = 1 \/ value = 2 \/ value = 3 \/
                     value = 4 \/ value = 5 \/ value = 6 \/ value = 7 \/
                     value = 8 \/ value = 9) by lia.
    elem_cases Hc;
      destruct Hcases as [->|[->|[->|[->|[->|[->|[->|[->|[->| ->]]]]]]]]];
      reflexivity.
  - intros [Hc Ha]. unfold chromatic in Hc. elem_cases Hc; elem_cases Ha; reflexivity.
  - intros Ha. elem_cases Ha; reflexivity.
Qed.

Lemma parse_manual_input_card_text_green_7 :
  parse_manual_input three_cards "green 7" true
  = Ok (add_and_return three_cards true (NumberCard "green" 7)).
Proof.
  apply (parse_manual_input_card_text three_cards (NumberCard "green" 7) true).
  split; [unfold chromatic; repeat constructor|lia].
Defined.

Lemma delete_last {A : Type} (l : list A) (x : A) :
  delete (length l) (l ++ [x]) = l.
Proof. induction l as [|y l IH]; simpl; [done|]. by rewrite IH. Qed.

(** X5. A card added by hand is the last of the hand, and removing the last
    position gives the game back as it was. *)
Theorem add_then_remove_last (self self' : UNOGame) (text line : string) (c : card) :
  parse_manual_input self text true = Ok (self', Some c) ->
  Str.int line = Ok (Z.of_nat (length (player_hand self)) + 1) ->
  player_hand self' = player_hand self ++ [c] /\
  remove_card_from_hand self' line = Ok (self, Removed c).
Proof.
  intros Hp Hint. apply parse_manual_input_ok in Hp as [_ ->]. split; [done|].
  rewrite remove_card_from_hand_read, Hint by (simpl; by destruct (player_hand self)).
  simpl player_hand. rewrite length_app. simpl length.
  destruct (Z.eqb_spec (Z.of_nat (length (player_hand self)) + 1) 0); [lia|].
  destruct (Z.leb_spec 1 (Z.of_nat (length (player_hand self)) + 1)); [|lia].
  destruct (Z.leb_spec (Z.of_nat (length (player_hand self)) + 1)
              (Z.of_nat (length (player_hand self) + 1))); [|lia].
  cbn [andb].
  replace (Z.of_nat (length (player_hand self)) + 1 - 1)
    with (Z.of_nat (length (player_hand self))) by lia.
  rewrite (pop_lookup _ _ c) by (by rewrite lookup_app_r, Nat.sub_diag).
  cbn [mbind result_bind]. do 2 f_equal.
  rewrite delete_last. destruct self; reflexivity.
Qed.

Lemma add_then_remove_last_example :
  player_hand (set_player_hand three_cards (player_hand three_cards ++ [ActionCard "blue" "skip"]))
  = player_hand three_cards ++ [ActionCard "blue" "skip"] /\
  remove_card_from_hand
    (set_player_hand three_cards (player_hand three_cards ++ [ActionCard "blue" "skip"])) "4"
  = Ok (three_cards, Removed (ActionCard "blue" "skip")).
Proof.
  apply (add_then_remove_last three_cards _ "blue skip" "4" (ActionCard "blue" "skip"));
    by vm_compute.
Defined.

(** ** Case and surrounding whitespace *)

Lemma lower_char_idem (c : ascii) :
  Str.lower_char (Str.lower_char c) = Str.lower_char c.
Proof. destruct c as [[] [] [] [] [] [] [] []]; by vm_compute. Qed.

Lemma lower_char_space (c : ascii) :
  Str.isspace_char (Str.lower_char c) = Str.isspace_char c.
Proof. destruct c as [[] [] [] [] [] [] [] []]; by vm_compute. Qed.

Lemma lower_idem (s : string) : Str.lower (Str.lower s) = Str.lower s.
Proof.
  unfold Str.lower. rewrite chars_of_chars, map_map. f_equal.
  apply map_ext. intros c. apply lower_char_idem.
Qed.

Lemma lstrip_chars_map (p : ascii -> bool) (f : ascii -> ascii) (l : list ascii) :
  (forall c, p (f c) = p c) ->
  Str.lstrip_chars p (map f l) = map f (Str.lstrip_chars p l).
Proof.
  intros Hp. induction l as [|c l IH]; simpl; [done|].
  rewrite Hp. by destruct (p c).
Qed.

Lemma strip_chars_map (p : ascii -> bool) (f : ascii -> ascii) (l : list ascii) :
  (forall c, p (f c) = p c) ->
  Str.strip_chars p (map f l) = map f (Str.strip_chars p l).
Proof.
  intros Hp. unfold Str.strip_chars.
  by rewrite lstrip_chars_map, <- map_rev, lstrip_chars_map, map_rev.
Qed.

(** What [lstrip] drops is whitespace. *)
Lemma lstrip_chars_split (p : ascii -> bool) (l : list ascii) :
  exists ws, Forall (fun c => p c = true) ws /\ l = ws ++ Str.lstrip_chars p l.
Proof.
  induction l as [|c l (ws & Hws & IH)]; simpl.
  - by exists [].
  - destruct (p c) eqn:Hc.
    + exists (c :: ws). split; [by constructor|]. simpl. by f_equal.
    + by exists [].
Qed.

Lemma strip_chars_split (p : ascii -> bool) (l : list ascii) :
  exists ws1 ws2,
    Forall (fun c => p c = true) ws1 /\ Forall (fun c => p c = true) ws2 /\
    l = ws1 ++ Str.strip_chars p l ++ ws2.
Proof.
  destruct (lstrip_chars_split p l) as (ws1 & H1 & E1).
  destruct (lstrip_chars_split p (rev (Str.lstrip_chars p l))) as (ws2 & H2 & E2).
  exists ws1, (rev ws2). split_and!; [done| |].
  - apply Forall_forall. intros c Hc. rewrite Forall_forall in H2.
    apply H2, list_elem_of_In, in_rev. by apply list_elem_of_In.
  - unfold Str.strip_chars. rewrite <- rev_app_distr, <- E2, rev_involutive.
    exact E1.
Qed.

Lemma split_chars_spaces (cur ws : list ascii) :
  Forall (fun c => Str.isspace_char c = true) ws ->
  Str.split_chars cur ws = Str.split_chars cur [].
Proof.
  intros Hws. revert cur. induction Hws as [|c ws Hc _ IH]; intros cur; [done|].
  simpl. rewrite Hc, (IH []). by destruct cur.
Qed.

Lemma split_chars_trailing (cur l ws : list ascii) :
  Forall (fun c => Str.isspace_char c = true) ws ->
  Str.split_chars cur (l ++ ws) = Str.split_chars cur l.
Proof.
  intros Hws. revert cur. induction l as [|c l IH]; intros cur; simpl.
  - by apply split_chars_spaces.
  - rewrite !IH. done.
Qed.

Lemma split_chars_leading (ws l : list ascii) :
  Forall (fun c => Str.isspace_char c = true) ws ->
  Str.split_chars [] (ws ++ l) = Str.split_chars [] l.
Proof. induction 1 as [|c ws Hc _ IH]; simpl; [done|]. by rewrite Hc. Qed.

(** Whitespace around a text does not change its tokens. *)
Lemma split_strip (s : string) : Str.split (Str.strip s) = Str.split s.
Proof.
  unfold Str.split, Str.strip. rewrite chars_of_chars.
  destruct (strip_chars_split Str.isspace_char (Str.chars s)) as (ws1 & ws2 & H1 & H2 & E).
  rewrite E at 2. by rewrite split_chars_leading, split_chars_trailing.
Qed.

Lemma lower_strip (s : string) : Str.lower (Str.strip s) = Str.strip (Str.lower s).
Proof.
  unfold Str.lower, Str.strip. rewrite !chars_of_chars. f_equal.
  symmetry. apply strip_chars_map, lower_char_space.
Qed.

(** X9. The parser reads a text whatever its case and the whitespace around
    it: the text in lower case, and the text without leading and trailing
    whitespace, are parsed as the text itself. *)
Theorem parse_manual_input_normalized (self : UNOGame) (text : string) (adicionar_na_mao : bool) :
  parse_manual_input self (Str.lower text) adicionar_na_mao
  = parse_manual_input self text adicionar_na_mao /\
  parse_manual_input self (Str.strip text) adicionar_na_mao
  = parse_manual_input self text adicionar_na_mao.
Proof.
  unfold parse_manual_input. split.
  - by rewrite lower_idem.
  - by rewrite lower_strip, split_strip.
Qed.

(** ** More on the classifier of colours *)

Lemma countNonZero_cons (b : bool) (mask : list bool) :
  countNonZero (b :: mask) = Z.b2z b + countNonZero mask.
Proof. unfold countNonZero. destruct b; simpl; lia. Qed.

Lemma countNonZero_nonneg (mask : list bool) : 0 <= countNonZero mask.
Proof. unfold countNonZero. lia. Qed.

Lemma count_inRange_false (img : list hsv) (lo hi : hsv) :
  Forall (fun p => in_range lo hi p = false) img ->
  countNonZero (inRange img lo hi) = 0.
Proof.
  induction 1 as [|p img Hp _ IH]; [done|].
  unfold inRange in *. simpl. by rewrite countNonZero_cons, Hp, IH.
Qed.

Lemma count_inRange_true (img : list hsv) (lo hi : hsv) :
  Forall (fun p => in_range lo hi p = true) img ->
  countNonZero (inRange img lo hi) = Z.of_nat (length img).
Proof.
  induction 1 as [|p img Hp _ IH]; [done|].
  unfold inRange in *. simpl length. simpl map.
  rewrite countNonZero_cons, Hp, IH. simpl. lia.
Qed.

Lemma count_or_false (img : list hsv) (lo1 hi1 lo2 hi2 : hsv) :
  Forall (fun p => in_range lo1 hi1 p = false /\ in_range lo2 hi2 p = false) img ->
  countNonZero (bitwise_or (inRange img lo1 hi1) (inRange img lo2 hi2)) = 0.
Proof.
  induction 1 as [|p img [H1 H2] _ IH]; [done|].
  unfold bitwise_or, inRange in *. simpl.
  by rewrite countNonZero_cons, H1, H2, IH.
Qed.

(** The scores of a list of pixels, colour by colour. *)
Lemma color_scores_eq (img : list hsv) :
  color_scores img
  = [ ("red", countNonZero (bitwise_or (inRange img (0, 120, 70) (10, 255, 255))
                                       (inRange img (170, 120, 70) (180, 255, 255))));
      ("blue", countNonZero (inRange img (90, 120, 70) (140, 255, 255)));
      ("green", countNonZero (inRange img (36, 50, 50) (89, 255, 255)));
      ("yellow", countNonZero (inRange img (20, 100, 100) (35, 255, 255)));
      ("black", countNonZero (inRange img (0, 0, 0) (180, 50, 50))) ].
Proof. reflexivity. Qed.

Lemma color_scores_dark (img : list hsv) :
  Forall dark_pixel img ->
  color_scores img
  = [("red", 0); ("blue", 0); ("green", 0); ("yellow", 0);
     ("black", Z.of_nat (length img))].
Proof.
  intros Hd. rewrite color_scores_eq.
  rewrite count_or_false, (count_inRange_false _ (90, 120, 70)),
    (count_inRange_false _ (36, 50, 50)), (count_inRange_false _ (20, 100, 100)),
    count_inRange_true; [done|..];
    (eapply Forall_impl; [exact Hd|]); intros [[h s] v] (Hh & Hs & Hv & Hc);
    unfold in_range; try split; leb_cases.
Qed.

Section ColorFacts.

Variable image : Type.
Variable cvtColor_BGR2HSV : image -> list hsv.

(** X10. An image of more than 1000 dark pixels is black, whatever the hues. *)
Theorem detect_color_dark (img : image) :
  Forall dark_pixel (cvtColor_BGR2HSV img) ->
  (1000 < length (cvtColor_BGR2HSV img))%nat ->
  detect_color cvtColor_BGR2HSV img = Ok "black".
Proof.
  intros Hd Hn. unfold detect_color. rewrite (color_scores_dark _ Hd).
  set (n := Z.of_nat (length (cvtColor_BGR2HSV img))).
  assert (Hn' : 1000 < n) by (unfold n; lia). clearbody n.
  destruct n as [|p|p]; [lia| |lia]. simpl.
  by destruct (Z.ltb_spec 1000 (Z.pos p)); [|lia].
Qed.

End ColorFacts.

Lemma detect_color_dark_black_pixels :
  detect_color (image := list hsv) id black_pixels = Ok "black".
Proof.
  apply (detect_color_dark (list hsv) id black_pixels).
  - apply Forall_forall. intros p Hp%list_elem_of_In%repeat_spec. subst p.
    simpl. lia.
  - cbv [id black_pixels]. rewrite repeat_length. lia.
Defined.

(** [max] keeps the first of the keys with the greatest value: the keys
    before it have smaller values, the keys after it no greater ones. *)
Lemma max_from_first (rest : list (string * Z)) (best : string * Z) :
  exists (l1 l2 : list (string * Z)) (v : Z),
    best :: rest = l1 ++ (max_from best rest, v) :: l2 /\
    Forall (fun kv => kv.2 < v) l1 /\
    Forall (fun kv => kv.2 <= v) l2.
Proof.
  revert best. induction rest as [|kv rest IH]; intros best; simpl.
  - exists [], [], best.2. by destruct best.
  - specialize (IH (if best.2 <? kv.2 then kv else best)). revert IH.
    generalize (max_from (if best.2 <? kv.2 then kv else best) rest) as m.
    intros m (l1 & l2 & v & E & H1 & H2).
    destruct (Z.ltb_spec best.2 kv.2) as [Hlt|Hge].
    + exists (best :: l1), l2, v. split_and!; [by rewrite E| |done].
      constructor; [|done].
      destruct l1 as [|x l1]; simpl in E.
      * injection E as E _. apply (f_equal snd) in E. simpl in E. lia.
      * injection E as <- _. apply Forall_cons in H1 as [H1 _]. lia.
    + destruct l1 as [|x l1]; simpl in E.
      * injection E as E E2. subst l2. exists [], (kv :: rest), v.
        split_and!; [simpl; by f_equal|done|].
        constructor; [|done]. apply (f_equal snd) in E. simpl in E. lia.
      * injection E as E1 E2. subst x rest. apply Forall_cons in H1 as [Hb H1].
        exists (best :: kv :: l1), l2, v. split_and!; [done| |done].
        constructor; [done|]. constructor; [lia|done].
Qed.

Section ColorOrder.

Variable image : Type.
Variable cvtColor_BGR2HSV : image -> list hsv.

(** X12. Ties go to the earlier colour.  When the classifier answers a colour,
    every colour before it in the order red, blue, green, yellow, black
    has a smaller score, and every colour after it a score no greater. *)
Theorem detect_color_first_maximum (img : image) (c : string) :
  detect_color cvtColor_BGR2HSV img = Ok c -> c <> "unknown" ->
  exists (l1 l2 : list (string * Z)) (v : Z),
    color_scores (cvtColor_BGR2HSV img) = l1 ++ (c, v) :: l2 /\
    1000 < v /\
    Forall (fun kv => kv.2 < v) l1 /\
    Forall (fun kv => kv.2 <= v) l2.
Proof.
  unfold detect_color.
  destruct (color_scores (cvtColor_BGR2HSV img)) as [|kv rest] eqn:Hs; [done|].
  destruct (max_from_first rest kv) as (l1 & l2 & v & E & H1 & H2).
  cbn [max_key mbind result_bind mret result_ret].
  assert (Hv : score_of (kv :: rest) (max_from kv rest) = v).
  { apply score_of_elem_of.
    - rewrite <- Hs, color_scores_keys. apply (bool_decide_unpack _). by vm_compute.
    - rewrite E. apply elem_of_app. right. apply list_elem_of_here. }
  rewrite Hv. destruct (Z.ltb_spec 1000 v); [|by intros [= <-]].
  intros [= <-] _. by exists l1, l2, v.
Qed.

End ColorOrder.

Lemma detect_color_first_maximum_corner :
  exists (l1 l2 : list (string * Z)) (v : Z),
    color_scores (repeat (60, 50, 50) 1001) = l1 ++ ("green", v) :: l2 /\
    1000 < v /\
    Forall (fun kv => kv.2 < v) l1 /\
    Forall (fun kv => kv.2 <= v) l2.
Proof.
  apply (detect_color_first_maximum (list hsv) id (repeat (60, 50, 50) 1001) "green");
    by vm_compute.
Defined.

(** ** The ranges of the chromatic colours *)

Lemma in_range_hue (lo hi p : hsv) :
  in_range lo hi p = true -> lo.1.1 <= p.1.1 <= hi.1.1.
Proof.
  destruct lo as [[l0 l1] l2], hi as [[h0 h1] h2], p as [[p0 p1] p2]. simpl.
  rewrite !andb_true_iff, !Z.leb_le. lia.
Qed.

(** A pixel is within the ranges of one chromatic colour at most. *)
Lemma chromatic_pixel (p : hsv) :
  Z.b2z (in_range (0, 120, 70) (10, 255, 255) p
         || in_range (170, 120, 70) (180, 255, 255) p)
  + Z.b2z (in_range (90, 120, 70) (140, 255, 255) p)
  + Z.b2z (in_range (36, 50, 50) (89, 255, 255) p)
  + Z.b2z (in_range (20, 100, 100) (35, 255, 255) p) <= 1.
Proof.
  destruct (in_range (0, 120, 70) (10, 255, 255) p) eqn:H1;
    destruct (in_range (170, 120, 70) (180, 255, 255) p) eqn:H2;
    destruct (in_range (90, 120, 70) (140, 255, 255) p) eqn:H3;
    destruct (in_range (36, 50, 50) (89, 255, 255) p) eqn:H4;
    destruct (in_range (20, 100, 100) (35, 255, 255) p) eqn:H5;
    simpl; try lia;
    repeat match goal with
           | H : in_range _ _ _ = true |- _ => apply in_range_hue in H; simpl in H
           end; lia.
Qed.

(** X13. No pixel counts for two chromatic colours: the scores of red, blue,
    green and yellow add up to the number of pixels at most. *)
Theorem chromatic_scores_disjoint (img : list hsv) :
  0 <= score_of (color_scores img) "red" /\
  0 <= score_of (color_scores img) "blue" /\
  0 <= score_of (color_scores img) "green" /\
  0 <= score_of (color_scores img) "yellow" /\
  score_of (color_scores img) "red" + score_of (color_scores img) "blue"
  + score_of (color_scores img) "green" + score_of (color_scores img) "yellow"
  <= Z.of_nat (length img).
Proof.
  rewrite color_scores_eq. cbn [score_of String.eqb Ascii.eqb Bool.eqb].
  split_and!; try apply countNonZero_nonneg.
  induction img as [|p img IH]; [done|].
  unfold bitwise_or, inRange in *. cbn [map zip_with length].
  rewrite !countNonZero_cons. pose proof (chromatic_pixel p). lia.
Qed.

(** ** What the recognizer can return *)

Lemma first_special_names (text name : string) :
  first_special text special_cards = Some name ->
  name ∈ ["skip"; "reverse"; "draw_two"; "wild"; "wild_draw_four"].
Proof.
  unfold special_cards. simpl.
  repeat (destruct (Str.contains _ text); [intros [= <-]; repeat constructor|]).
  done.
Qed.

Lemma detect_card_type_values {image gray : Type}
    (preprocess_image : image -> gray) (image_to_string : gray -> string -> string)
    (img : image) (value : symbol) :
  detect_card_type preprocess_image image_to_string img = Ok value ->
  symbol_in_range value.
Proof.
  rewrite detect_card_type_eq.
  destruct (first_special _ _) as [name|] eqn:Hs.
  - intros [= <-]. by apply first_special_names in Hs.
  - case_bool_decide; [by intros [= <-]|].
    destruct (Str.int _) as [n|e]; [|done]. cbn [mbind result_bind].
    destruct (Z.leb_spec 0 n); destruct (Z.leb_spec n 9); simpl;
      intros [= <-]; simpl; try done; lia.
Qed.

Section RecognizerFacts.

Variable image : Type.
Variable gray : Type.
Variable cvtColor_BGR2HSV : image -> list hsv.
Variable preprocess_image : image -> gray.
Variable image_to_string : gray -> string -> string.
Variable crop : image -> image.

(** X14. Whatever text is recognized, a returned symbol is a digit from 0 to
    9, one of the five names of [special_cards], or [None]: a number of
    two digits or more is never returned. *)
Theorem detect_card_type_in_range (img : image) (value : symbol) :
  detect_card_type preprocess_image image_to_string img = Ok value ->
  symbol_in_range value.
Proof. apply detect_card_type_values. Qed.

(** What [detect_card] returns, by the colour and the symbol. *)
Lemma detect_card_cases (img : image) (r : option card) :
  detect_card cvtColor_BGR2HSV preprocess_image image_to_string crop img = Ok r ->
  exists (color : string) (value : symbol),
    detect_color cvtColor_BGR2HSV (crop img) = Ok color /\
    detect_card_type preprocess_image image_to_string (crop img) = Ok value /\
    match r with
    | Some (NumberCard c n) => chromatic c /\ c = color /\ value = SymInt n
    | Some (ActionCard c a) =>
        chromatic c /\ c = color /\ value = SymStr a /\
        a ∈ ["skip"; "reverse"; "draw_two"]
    | Some (WildCard a) =>
        color = "black" /\ a ∈ ["wild"; "wild_draw_four"] /\
        (value = SymStr "wild_draw_four" <-> a = "wild_draw_four")
    | None => True
    end.
Proof.
  unfold detect_card.
  destruct (detect_color_returns cvtColor_BGR2HSV (crop img)) as (color & Hc & Hin).
  rewrite Hc. cbn [mbind result_bind].
  destruct (detect_card_type _ _ _) as [value|e] eqn:Hv; [|done].
  cbn [mbind result_bind mret result_ret].
  intros Hr. exists color, value. split_and!; [done..|].
  assert (Hchr : forall c', c' ∈ ["red"; "blue"; "green"; "yellow"] -> chromatic c')
    by done.
  elem_cases Hin; destruct value as [n|s|]; cbn -[Str.mem] in Hr;
    try (destruct (Str.mem s _) eqn:Hm); injection Hr as <-; try done;
    try (apply mem_elem_of in Hm);
    try (split_and!; [apply Hchr; repeat constructor|done..]).
  - split_and!; [done|repeat constructor|]. by split.
  - split_and!; [done..|]. split; congruence.
  - split_and!; [done|repeat constructor|]. split; [|done].
    intros [= ->]. by vm_compute in Hm.
  - split_and!; [done|repeat constructor|]. by split.
Qed.

(** X15. Every card the recognizer returns is a card of the game: a number or
    action card has the chromatic colour detected and a value from 0 to 9
    or one of the three actions, a wild card one of the two wild actions. *)
Theorem detect_card_well_formed (img : image) (c : card) :
  detect_card cvtColor_BGR2HSV preprocess_image image_to_string crop img = Ok (Some c) ->
  well_formed c /\
  (forall color, get_color c = Some color ->
                 detect_color cvtColor_BGR2HSV (crop img) = Ok color) /\
  (get_color c = None -> detect_color cvtColor_BGR2HSV (crop img) = Ok "black").
Proof.
  intros Hr. destruct (detect_card_cases img _ Hr) as (color & value & Hc & Hv & Hcase).
  pose proof (detect_card_type_values _ _ _ _ Hv) as Hrange.
  destruct c as [c n|c a|a]; simpl.
  - destruct Hcase as (Hchr & -> & ->). split; [by split|].
    split; [by intros ? [= <-]|done].
  - destruct Hcase as (Hchr & -> & -> & Ha). split; [by split|].
    split; [by intros ? [= <-]|done].
  - destruct Hcase as (-> & Ha & _). split; [done|]. by split.
Qed.

End RecognizerFacts.

(** ** capture_card *)

Section CaptureFacts.

Variable image : Type.
Variable gray : Type.
Variable cvtColor_BGR2HSV : image -> list hsv.
Variable preprocess_image : image -> gray.
Variable image_to_string : gray -> string -> string.
Variable crop : image -> image.
Variable frame : Type.
Variable shape : frame -> Z * Z.
Variable annotate : frame -> frame.
Variable region : frame -> Z -> Z -> Z -> Z -> image.

Local Abbreviation capture_loop' :=
  (capture_loop cvtColor_BGR2HSV preprocess_image image_to_string crop
     shape annotate region).
Local Abbreviation capture_card' :=
  (capture_card cvtColor_BGR2HSV preprocess_image image_to_string crop
     shape annotate region).

Lemma idle_pass_keys (fr : option frame) (key : Z) :
  idle_pass (fr, key) ->
  (key =? 27) = false /\ (key =? 99) || (key =? 67) = false /\
  (key =? 113) || (key =? 81) = false.
Proof.
  intros [_ Hk]. simpl in Hk. rewrite !not_elem_of_cons in Hk.
  destruct Hk as (? & ? & ? & ? & ? & _).
  rewrite !orb_false_iff, !Z.eqb_neq. done.
Qed.

(** The loop passes over idle passes, showing each frame. *)
Lemma capture_loop_idle (idle rest : list (option frame * Z)) (log : list effect) :
  Forall idle_pass idle ->
  capture_loop' (idle ++ rest) log
  = capture_loop' rest (log ++ repeat Imshow (length idle)).
Proof.
  intros Hi. revert log. induction Hi as [|[fr key] idle Hp _ IH]; intros log; simpl.
  - by rewrite app_nil_r.
  - destruct (idle_pass_keys _ _ Hp) as (-> & -> & ->).
    destruct Hp as [[f Hf] _]. simpl in Hf. subst fr.
    destruct (shape f) as [h w]. rewrite IH. by rewrite <- app_assoc.
Qed.

(** X16. When a read fails before any key decides, the function does not
    return [None]: it raises [UnboundLocalError], the camera released and
    the window left open. *)
Theorem capture_card_failed_read (cam : camera frame) (idle rest : list (option frame * Z)) (key : Z) :
  opened cam = true ->
  events cam = idle ++ (None, key) :: rest ->
  Forall idle_pass idle ->
  capture_card' cam
  = Some (Fail UnboundLocalError, repeat Imshow (length idle) ++ [Release]).
Proof.
  intros Ho He Hi. unfold capture_card. rewrite Ho, He. simpl.
  by rewrite capture_loop_idle.
Qed.


(** With c or C the frame shown is cut to its central half and handed to
    the recognizer; the window is closed and the camera released. *)
Lemma capture_card_capture (cam : camera frame) (idle rest : list (option frame * Z)) (fr : frame) (key : Z) :
  opened cam = true ->
  events cam = idle ++ (Some fr, key) :: rest ->
  Forall idle_pass idle ->
  key ∈ [99; 67] ->
  capture_card' cam
  = Some (lift (detect_card cvtColor_BGR2HSV preprocess_image image_to_string crop
                  (region (annotate fr) ((shape fr).1 / 4) (3 * (shape fr).1 / 4)
                     ((shape fr).2 / 4) (3 * (shape fr).2 / 4))),
          repeat Imshow (length idle) ++ [Imshow; DestroyAllWindows; Release]).
Proof.
  intros Ho He Hi Hk. unfold capture_card. rewrite Ho, He. simpl.
  rewrite capture_loop_idle by done. simpl. destruct (shape fr) as [h w].
  elem_cases Hk; simpl; by rewrite <- ?app_assoc.
Qed.

Lemma capture_loop_card (passes : list (option frame * Z)) (log log' : list effect) (c : card) :
  capture_loop' passes log = Some (Done (Some c), log') ->
  well_formed c /\ exists shown, log' = shown ++ [DestroyAllWindows; Release].
Proof.
  revert log. induction passes as [|[[fr|] key] passes IH]; intros log; simpl; [done| |done].
  destruct (shape fr) as [h w].
  destruct (key =? 27); [done|].
  destruct ((key =? 99) || (key =? 67)).
  - intros [= Hd <-]. split; [|by eexists].
    destruct (detect_card _ _ _ _ _) as [[c'|]|e] eqn:Hdc; simpl in Hd; try done.
    injection Hd as ->.
    destruct (detect_card_cases _ _ _ _ _ _ _ _ Hdc) as (color & value & _ & Hv & Hcase).
    pose proof (detect_card_type_values _ _ _ _ Hv) as Hrange.
    destruct c as [col n|col a|a]; simpl.
    + destruct Hcase as (Hchr & _ & ->). by split.
    + destruct Hcase as (Hchr & _ & _ & Ha). by split.
    + by destruct Hcase as (_ & Ha & _).
  - destruct ((key =? 113) || (key =? 81)); [done|]. apply IH.
Qed.

Lemma capture_card_cards (cam : camera frame) (c : card) (log : list effect) :
  capture_card' cam = Some (Done (Some c), log) -> well_formed c.
Proof.
  unfold capture_card. destruct (opened cam); simpl; [|done].
  intros H. by apply capture_loop_card in H as [? _].
Qed.

(** X18. Every card the function returns is a card of the game, and by then the
    window is closed and the camera released. *)
Theorem capture_card_well_formed (cam : camera frame) (c : card) (log : list effect) :
  capture_card' cam = Some (Done (Some c), log) ->
  well_formed c /\ exists shown, log = shown ++ [DestroyAllWindows; Release].
Proof.
  unfold capture_card. destruct (opened cam); simpl; [|done].
  apply capture_loop_card.
Qed.

(** X19. The function comes to an end exactly when some pass decides: as long
    as frames are read and no key of the five is pressed it goes on. *)
Theorem capture_card_returns (cam : camera frame) :
  opened cam = true ->
  (capture_card' cam = None <-> Forall idle_pass (events cam)).
Proof.
  intros Ho. unfold capture_card. rewrite Ho. simpl.
  generalize (@nil effect) as log.
  induction (events cam) as [|[[fr|] key] passes IH]; intros log; simpl.
  - by split.
  - destruct (shape fr) as [h w]. rewrite Forall_cons.
    destruct (Z.eqb_spec key 27) as [->|H27].
    { split; [done|]. intros [[_ Hk] _]. simpl in Hk.
      exfalso. apply Hk. repeat constructor. }
    destruct (Z.eqb_spec key 99) as [->|H99].
    { split; [done|]. intros [[_ Hk] _]. exfalso. apply Hk. repeat constructor. }
    destruct (Z.eqb_spec key 67) as [->|H67].
    { split; [done|]. intros [[_ Hk] _]. exfalso. apply Hk. repeat constructor. }
    destruct (Z.eqb_spec key 113) as [->|H113].
    { split; [done|]. intros [[_ Hk] _]. exfalso. apply Hk. repeat constructor. }
    destruct (Z.eqb_spec key 81) as [->|H81].
    { split; [done|]. intros [[_ Hk] _]. exfalso. apply Hk. repeat constructor. }
    simpl. rewrite IH. split; [|by intros [_ ?]].
    intros Hp. split; [|done]. split; [by eexists|]. simpl.
    rewrite !not_elem_of_cons. split_and!; try done. apply not_elem_of_nil.
  - split; [done|]. rewrite Forall_cons. intros [[[f Hf] _] _]. done.
Qed.

End CaptureFacts.

(** ** The menu *)

Lemma new_top_eq (self : UNOGame) (c : card) :
  new_top self c = Done (set_top_card self c).
Proof.
  unfold new_top, set_top_card. by rewrite melhores_jogadas_sorted.
Qed.

Lemma input_done (stdin stdin' : list string) (line : string) :
  input stdin = Done (line, stdin') -> stdin = line :: stdin'.
Proof. destruct stdin; [done|]. by intros [= -> ->]. Qed.

Lemma game_ok_set_top (self : UNOGame) (c : card) :
  game_ok self -> well_formed c -> game_ok (set_top_card self c).
Proof.
  intros (Hh & Ht & Hc) Hwf. split_and!; [done| |done].
  by intros c' [= <-].
Qed.

Lemma type_top_card_done (self self' : UNOGame) (stdin stdin' : list string) :
  type_top_card self stdin = Done (self', stdin') ->
  (exists line, stdin = line :: stdin') /\
  (game_ok self -> game_ok self').
Proof.
  unfold type_top_card. destruct stdin as [|line stdin]; [done|].
  cbn [input mbind io_result_bind]. case_bool_decide.
  { intros [= <- <-]. split; [by eexists|done]. }
  destruct (parse_manual_input _ _ _) as [[self1 card]|e] eqn:Hp; [|done].
  cbn [lift mbind io_result_bind mret io_result_ret].
  apply parse_manual_input_ok in Hp.
  destruct card as [c|].
  - destruct Hp as [Hwf ->]. rewrite new_top_eq.
    intros [= <- <-]. split; [by eexists|]. intros Hok. by apply game_ok_set_top.
  - subst self1. intros [= <- <-]. split; [by eexists|done].
Qed.

Lemma type_hand_card_done (self self' : UNOGame) (stdin stdin' : list string) :
  type_hand_card self stdin = Done (self', stdin') ->
  (exists line, stdin = line :: stdin') /\
  (game_ok self -> game_ok self').
Proof.
  unfold type_hand_card. destruct stdin as [|line stdin]; [done|].
  cbn [input mbind io_result_bind]. case_bool_decide.
  { intros [= <- <-]. split; [by eexists|done]. }
  destruct (parse_manual_input _ _ _) as [[self1 card]|e] eqn:Hp; [|done].
  cbn [lift mbind io_result_bind mret io_result_ret].
  intros [= <- <-]. split; [by eexists|].
  apply parse_manual_input_ok in Hp. destruct card as [c|]; [|by subst].
  destruct Hp as [Hwf ->]. intros (Hh & Ht & Hc). split_and!; [|done..].
  simpl. apply Forall_app. split; [done|]. by constructor.
Qed.

Lemma game_ok_removed (self self' : UNOGame) (line : string) (r : removal) :
  remove_card_from_hand self line = Ok (self', r) ->
  game_ok self -> game_ok self'.
Proof.
  intros Hr (Hh & Ht & Hc).
  destruct (remove_card_from_hand_cases self line) as (g & r' & Hr' & Htop & Hcc & Hcase).
  rewrite Hr in Hr'. injection Hr' as <- <-.
  destruct Hcase as [(c & i & _ & _ & Hd)|[_ ->]]; [|done].
  split_and!; [|by rewrite Htop|by rewrite Hcc].
  rewrite Hd. by apply Forall_delete.
Qed.

Lemma remove_typed_done (self self' : UNOGame) (stdin stdin' : list string) :
  remove_typed self stdin = Done (self', stdin') ->
  stdin' `suffix_of` stdin /\ (game_ok self -> game_ok self').
Proof.
  unfold remove_typed.
  destruct (player_hand self) as [|c0 hand] eqn:Hh.
  - destruct (remove_card_from_hand self "") as [[self1 r]|e] eqn:Hr; [|done].
    cbn [lift mbind io_result_bind mret io_result_ret].
    intros [= <- <-]. split; [done|]. by apply (game_ok_removed _ _ _ _ Hr).
  - destruct stdin as [|line stdin]; [done|].
    cbn [input mbind io_result_bind].
    destruct (remove_card_from_hand self line) as [[self1 r]|e] eqn:Hr; [|done].
    cbn [lift mbind io_result_bind mret io_result_ret].
    intros [= <- <-]. split; [by apply suffix_cons_r|].
    by apply (game_ok_removed _ _ _ _ Hr).
Qed.

Section RunFacts.

Variable image : Type.
Variable gray : Type.
Variable cvtColor_BGR2HSV : image -> list hsv.
Variable preprocess_image : image -> gray.
Variable image_to_string : gray -> string -> string.
Variable crop : image -> image.
Variable frame : Type.
Variable shape : frame -> Z * Z.
Variable annotate : frame -> frame.
Variable region : frame -> Z -> Z -> Z -> Z -> image.

Local Abbreviation capture_card' :=
  (capture_card cvtColor_BGR2HSV preprocess_image image_to_string crop
     shape annotate region).
Local Abbreviation capture_top_card' :=
  (capture_top_card cvtColor_BGR2HSV preprocess_image image_to_string crop
     shape annotate region).
Local Abbreviation menu_pass' :=
  (menu_pass cvtColor_BGR2HSV preprocess_image image_to_string crop
     shape annotate region).
Local Abbreviation run_loop' :=
  (run_loop cvtColor_BGR2HSV preprocess_image image_to_string crop
     shape annotate region).
Local Abbreviation run' :=
  (run cvtColor_BGR2HSV preprocess_image image_to_string crop
     shape annotate region).

Lemma capture_top_card_done (self self' : UNOGame) (cams cams' : list (camera frame)):
  capture_top_card' self cams = Some (Done self', cams') ->
  cams' `suffix_of` cams /\ (game_ok self -> game_ok self').
Proof.
  unfold capture_top_card.
  assert (Hgen : forall cam,
             match capture_card' cam with
             | None => None
             | Some (r, _) =>
                 Some (card ← r;
                       match card with
                       | Some c => new_top self c
                       | None => mret self
                       end, cams')
             end = Some (Done self', cams') ->
             game_ok self -> game_ok self').
  { intros cam. destruct (capture_card' cam) as [[[[c|]|e] log]|] eqn:Hc; try done.
    - cbn [mbind io_result_bind]. rewrite new_top_eq. intros [= <-] Hok.
      apply game_ok_set_top; [done|].
      by apply (capture_card_cards _ _ _ _ _ _ _ _ _ _ _ _ _ Hc).
    - cbn [mbind io_result_bind mret io_result_ret]. by intros [= <-]. }
  destruct cams as [|cam cams].
  - destruct (capture_card' _) as [[r log]|] eqn:Hc; [|done].
    intros [= Hr <-]. split; [done|]. apply (Hgen {| opened := false; events := [] |}).
    by rewrite Hc, Hr.
  - destruct (capture_card' cam) as [[r log]|] eqn:Hc; [|done].
    intros [= Hr <-]. split; [by apply suffix_cons_r|]. apply (Hgen cam).
    by rewrite Hc, Hr.
Qed.

Lemma capture_top_card_none (self : UNOGame) (cams : list (camera frame)) :
  capture_top_card' self cams = None ->
  exists cam, cam ∈ cams /\ capture_card' cam = None.
Proof.
  unfold capture_top_card. destruct cams as [|cam cams].
  - unfold capture_card. by cbn [negb opened].
  - destruct (capture_card' cam) as [[r log]|] eqn:Hc; [done|].
    intros _. exists cam. split; [apply list_elem_of_here|done].
Qed.

(** A pass that goes back to the menu. *)
Lemma menu_pass_again (s s' : session frame) :
  menu_pass' s = Some (Done (Again s')) ->
  (exists line, stdin s = line :: stdin s' \/
                exists line', stdin s = line :: line' :: stdin s') /\
  cameras s' `suffix_of` cameras s /\
  (game_ok (game s) -> game_ok (game s')).
Proof.
  unfold menu_pass. destruct (stdin s) as [|choice rest] eqn:Hs; [done|].
  cbn [input].
  destruct (String.eqb choice "1").
  { destruct (capture_top_card' _ _) as [[[self|e] cams]|] eqn:Hc; try done.
    cbn [mbind io_result_bind mret io_result_ret]. intros [= <-]. simpl.
    apply capture_top_card_done in Hc as [Hsuf Hok].
    split_and!; [exists choice; by left|done..]. }
  destruct (String.eqb choice "2" || String.eqb choice "5").
  { destruct (type_top_card _ _) as [[self stdin']|e] eqn:Ht; [|done].
    cbn [mbind io_result_bind mret io_result_ret]. intros [= <-]. simpl.
    apply type_top_card_done in Ht as [[line ->] Hok].
    split_and!; [exists choice; right; by exists line|done..]. }
  destruct (String.eqb choice "3").
  { destruct rest as [|line rest]; [done|].
    cbn [input mbind io_result_bind mret io_result_ret]. intros [= <-]. simpl.
    split_and!; [exists choice; right; by exists line|done..]. }
  destruct (String.eqb choice "4").
  { destruct (type_hand_card _ _) as [[self stdin']|e] eqn:Ht; [|done].
    cbn [mbind io_result_bind mret io_result_ret]. intros [= <-]. simpl.
    apply type_hand_card_done in Ht as [[line ->] Hok].
    split_and!; [exists choice; right; by exists line|done..]. }
  destruct (String.eqb choice "6").
  { destruct (remove_typed _ _) as [[self stdin']|e] eqn:Ht; [|done].
    cbn [mbind io_result_bind mret io_result_ret]. intros [= <-]. simpl.
    pose proof Ht as Ht'. apply remove_typed_done in Ht as [Hsuf Hok].
    split_and!; [|done..]. exists choice.
    unfold remove_typed in Ht'. destruct (player_hand (game s)).
    - destruct (remove_card_from_hand _ _) as [[? ?]|]; [|done].
      injection Ht' as _ <-. by left.
    - destruct rest as [|line rest]; [done|]. cbn [input mbind io_result_bind] in Ht'.
      destruct (remove_card_from_hand _ _) as [[? ?]|]; [|done].
      injection Ht' as _ <-. right. by exists line. }
  destruct (String.eqb choice "7"); [done|].
  cbn [mret io_result_ret]. intros [= <-]. simpl.
  split_and!; [exists choice; by left|done..].
Qed.

(** A pass that leaves the loop: the line read is 7. *)
Lemma menu_pass_leave (s s' : session frame) :
  menu_pass' s = Some (Done (Leave s')) ->
  stdin s = "7" :: stdin s' /\ game s' = game s /\ cameras s' = cameras s.
Proof.
  unfold menu_pass. destruct (stdin s) as [|choice rest] eqn:Hs; [done|].
  cbn [input].
  destruct (String.eqb choice "1").
  { destruct (capture_top_card' _ _) as [[[self|e] cams]|]; done. }
  destruct (String.eqb choice "2" || String.eqb choice "5").
  { by destruct (type_top_card _ _) as [[self stdin']|e]. }
  destruct (String.eqb choice "3").
  { by destruct (input rest) as [[? ?]|]. }
  destruct (String.eqb choice "4").
  { by destruct (type_hand_card _ _) as [[self stdin']|e]. }
  destruct (String.eqb choice "6").
  { by destruct (remove_typed _ _) as [[self stdin']|e]. }
  destruct (String.eqb_spec choice "7") as [->|]; [|done].
  by intros [= <-].
Qed.

(** A pass that does not end is a capture that does not end. *)
Lemma menu_pass_none (s : session frame) :
  menu_pass' s = None ->
  exists cam, cam ∈ cameras s /\ capture_card' cam = None.
Proof.
  unfold menu_pass. destruct (input (stdin s)) as [[choice rest]|e]; [|done].
  repeat (match goal with
          | |- context [if ?b then _ else _] => destruct b
          end; try done).
  destruct (capture_top_card' _ _) as [[r cams]|] eqn:Hc; [done|].
  intros _. by eapply capture_top_card_none.
Qed.

Lemma run_loop_done (fuel : nat) (s s' : session frame) :
  run_loop' fuel s = Some (Done s') ->
  (exists consumed, stdin s = consumed ++ "7" :: stdin s') /\
  cameras s' `suffix_of` cameras s /\
  (game_ok (game s) -> game_ok (game s')).
Proof.
  revert s. induction fuel as [|fuel IH]; intros s; simpl; [done|].
  destruct (menu_pass' s) as [[[s1|s1]|e]|] eqn:Hm; try done.
  - intros Hrun. apply IH in Hrun as ([consumed Hc] & Hsuf & Hok).
    apply menu_pass_again in Hm as ([line Hl] & Hsuf1 & Hok1).
    split_and!.
    + destruct Hl as [->|[line' ->]]; rewrite Hc.
      * by exists (line :: consumed).
      * by exists (line :: line' :: consumed).
    + by etransitivity.
    + auto.
  - intros [= <-]. apply menu_pass_leave in Hm as (Hs & Hg & Hc).
    split_and!.
    + by exists [].
    + rewrite Hc. by exists [].
    + by rewrite Hg.
Qed.

Lemma run_loop_enough (fuel : nat) (s : session frame) :
  (length (stdin s) < fuel)%nat ->
  Forall (fun cam => capture_card' cam <> None) (cameras s) ->
  exists r, forall fuel', (length (stdin s) < fuel')%nat -> run_loop' fuel' s = Some r.
Proof.
  revert s. induction fuel as [|fuel IH]; intros s Hlen Hcams; [lia|].
  destruct (menu_pass' s) as [[[s1|s1]|e]|] eqn:Hm.
  - pose proof Hm as Hm'. apply menu_pass_again in Hm' as ([line Hl] & Hsuf & _).
    assert (Hshort : (length (stdin s1) < length (stdin s))%nat).
    { destruct Hl as [->|[line' ->]]; simpl; lia. }
    destruct (IH s1) as [r Hr]; [lia| |].
    { destruct Hsuf as [k Hk]. rewrite Hk in Hcams.
      by apply Forall_app in Hcams as [_ ?]. }
    exists r. intros [|fuel'] Hf; [lia|]. simpl. rewrite Hm. apply Hr. lia.
  - exists (Done s1). intros [|fuel'] Hf; [lia|]. simpl. by rewrite Hm.
  - exists (Fail e). intros [|fuel'] Hf; [lia|]. simpl. by rewrite Hm.
  - apply menu_pass_none in Hm as (cam & Hin & Hnone).
    rewrite Forall_forall in Hcams. by destruct (Hcams cam Hin).
Qed.

(** X20. [run] keeps the game in order.  If the cards held and the top card
    are cards of the game when it starts, they are when it returns, as
    they are in a new game: nothing but the parser and the recognizer
    puts a card into the game. *)
Theorem run_keeps_game_ok (s s' : session frame) :
  game_ok (game s) ->
  run' s = Some (Done s') ->
  game_ok (game s').
Proof.
  intros Hok Hrun. unfold run in Hrun.
  apply run_loop_done in Hrun as (_ & _ & H). auto.
Qed.

(** X21. [run] returns by option 7 only: when it returns, a line 7 was read,
    and the lines left are those after it.  Without such a line it ends
    with an exception, [EOFError] at the end of the input if not before,
    or not at all. *)
Theorem run_returns_by_7 (s s' : session frame) :
  run' s = Some (Done s') ->
  exists consumed, stdin s = consumed ++ "7" :: stdin s'.
Proof.
  intros Hrun. unfold run in Hrun. by apply run_loop_done in Hrun as (H & _).
Qed.

(** X22. When every capture comes to an end, so does [run], by a return or by
    an exception, within one pass more than there are lines; more passes
    change nothing. *)
Theorem run_terminates (s : session frame) :
  Forall (fun cam => capture_card' cam <> None) (cameras s) ->
  exists r, run' s = Some r /\
            forall fuel, (length (stdin s) < fuel)%nat -> run_loop' fuel s = Some r.
Proof.
  intros Hcams.
  destruct (run_loop_enough (S (length (stdin s))) s) as [r Hr]; [lia|done|].
  exists r. split; [|done]. apply Hr. lia.
Qed.

End RunFacts.

(** ** Sample runs *)

Lemma parse_manual_input_well_formed_red_5 : well_formed (NumberCard "red" 5).
Proof.
  apply (parse_manual_input_well_formed three_cards three_cards "red 5" false).
  reflexivity.
Defined.

Lemma parse_manual_input_frame_blue_skip :
  top_card (set_player_hand three_cards (player_hand three_cards ++ [ActionCard "blue" "skip"]))
  = top_card three_cards /\
  current_color (set_player_hand three_cards (player_hand three_cards ++ [ActionCard "blue" "skip"]))
  = current_color three_cards /\
  player_hand (set_player_hand three_cards (player_hand three_cards ++ [ActionCard "blue" "skip"]))
  = player_hand three_cards ++ [ActionCard "blue" "skip"].
Proof.
  apply (parse_manual_input_frame three_cards _ "blue skip" true
           (Some (ActionCard "blue" "skip"))).
  reflexivity.
Defined.

Lemma detect_card_type_in_range_07 : symbol_in_range (SymInt 7).
Proof.
  apply (detect_card_type_in_range sample_image string sample_preprocess sample_ocr
           ([], "07")).
  by vm_compute.
Defined.

Lemma detect_card_well_formed_draw_four :
  well_formed (WildCard "wild_draw_four") /\
  (forall color, get_color (WildCard "wild_draw_four") = Some color ->
                 detect_color sample_hsv (sample_crop draw_four_frame) = Ok color) /\
  (get_color (WildCard "wild_draw_four") = None ->
   detect_color sample_hsv (sample_crop draw_four_frame) = Ok "black").
Proof.
  apply (detect_card_well_formed sample_image string sample_hsv sample_preprocess
           sample_ocr sample_crop draw_four_frame).
  by vm_compute.
Defined.

Lemma capture_card_failed_read_sample :
  capture_card sample_hsv sample_preprocess sample_ocr sample_crop
    sample_shape sample_annotate sample_region
    {| opened := true; events := [(Some draw_four_frame, -1); (None, 0)] |}
  = Some (Fail UnboundLocalError, repeat Imshow (length [(Some draw_four_frame, -1)]) ++ [Release]).
Proof.
  apply (capture_card_failed_read sample_image string sample_hsv sample_preprocess
           sample_ocr sample_crop sample_image sample_shape sample_annotate sample_region
           {| opened := true; events := [(Some draw_four_frame, -1); (None, 0)] |}
           [(Some draw_four_frame, -1)] [] 0).
  - reflexivity.
  - reflexivity.
  - repeat constructor; [by eexists|]. simpl.
    rewrite !not_elem_of_cons. split_and!; try done. apply not_elem_of_nil.
Defined.


Lemma capture_card_well_formed_draw_four :
  well_formed (WildCard "wild_draw_four") /\
  exists shown, [Imshow; DestroyAllWindows; Release] = shown ++ [DestroyAllWindows; Release].
Proof.
  apply (capture_card_well_formed sample_image string sample_hsv sample_preprocess
           sample_ocr sample_crop sample_image sample_shape sample_annotate sample_region
           {| opened := true; events := [(Some draw_four_frame, 99)] |}).
  by vm_compute.
Defined.

Lemma capture_card_returns_idle :
  capture_card sample_hsv sample_preprocess sample_ocr sample_crop
    sample_shape sample_annotate sample_region
    {| opened := true; events := [(Some draw_four_frame, -1)] |}
  = None.
Proof.
  apply (proj2 (capture_card_returns sample_image string sample_hsv sample_preprocess
                  sample_ocr sample_crop sample_image sample_shape sample_annotate
                  sample_region
                  {| opened := true; events := [(Some draw_four_frame, -1)] |}
                  eq_refl)).
  repeat constructor; [by eexists|]. simpl.
  rewrite !not_elem_of_cons. split_and!; try done. apply not_elem_of_nil.
Defined.

Lemma run_keeps_game_ok_sample : game_ok (game sample_session_end).
Proof.
  apply (run_keeps_game_ok sample_image string sample_hsv sample_preprocess
           sample_ocr sample_crop sample_image sample_shape sample_annotate sample_region
           sample_session sample_session_end).
  - split_and!; [constructor|done|done].
  - by vm_compute.
Defined.

Lemma run_returns_by_7_sample :
  exists consumed, stdin sample_session = consumed ++ "7" :: stdin sample_session_end.
Proof.
  apply (run_returns_by_7 sample_image string sample_hsv sample_preprocess
           sample_ocr sample_crop sample_image sample_shape sample_annotate sample_region
           sample_session sample_session_end).
  by vm_compute.
Defined.

Lemma run_terminates_sample :
  exists r,
    run sample_hsv sample_preprocess sample_ocr sample_crop
      sample_shape sample_annotate sample_region sample_session = Some r /\
    forall fuel, (length (stdin sample_session) < fuel)%nat ->
                 run_loop sample_hsv sample_preprocess sample_ocr sample_crop
                   sample_shape sample_annotate sample_region fuel sample_session
                 = Some r.
Proof.
  apply (run_terminates sample_image string sample_hsv sample_preprocess
           sample_ocr sample_crop sample_image sample_shape sample_annotate sample_region
           sample_session).
  constructor.
Defined.
